(** * The Commander node of the lander: flight state machine and control loop

    A shallow embedding of [src/py/lander/nodes/commander.py].

    The node object is a record of the two attributes the state machine
    mutates ([self.state] and [self.controller]).  Everything the node does
    to the outside (rospy logging, calls into the phase controllers, vehicle
    commands, sleeping, polling the shutdown flag) is recorded, in order, in
    a trace of events.  The methods live in a state-and-exception monad whose
    state survives a raised exception, as the attributes of a Python object
    do. *)

From Stdlib Require Import String List Bool Arith Lia ZArith.
Import ListNotations.
Local Open Scope string_scope.
Local Open Scope list_scope.

(** ** lander.lib.state *)

(** Modelled from the spec: the enumeration [FlightState] of
    [lander/lib/state.py], which the node imports.  The node itself names
    all six members ([INIT] at the start of the state machine, the other
    five as the keys of the controller registry). *)
Inductive FlightState : Type :=
  | INIT | PENDING | SEEK | APPROACH | DESCEND | LAND.

Definition FlightState_eqb (a b : FlightState) : bool :=
  match a, b with
  | INIT, INIT | PENDING, PENDING | SEEK, SEEK
  | APPROACH, APPROACH | DESCEND, DESCEND | LAND, LAND => true
  | _, _ => false
  end.

(** ** lander.controllers *)

(** Modelled from the spec: the five controller objects that
    [CommanderNode.__init__] builds from [lander.controllers], one per
    class, each built once and then only referred to.  A value of this type
    stands for that one instance. *)
Inductive Controller : Type :=
  | PendingController | SeekController | ApproachController
  | DescendController | LandController.

(** [self.controllers]: the dict literal of [__init__], in its order.  It is
    never written after construction. *)
Definition controllers : list (FlightState * Controller) :=
  [ (PENDING,  PendingController);
    (SEEK,     SeekController);
    (APPROACH, ApproachController);
    (DESCEND,  DescendController);
    (LAND,     LandController) ].

(** [d[k]] on a dict given as its items: [None] is Python's [KeyError]. *)
Fixpoint getitem (d : list (FlightState * Controller)) (k : FlightState)
  : option Controller :=
  match d with
  | [] => None
  | (k', v) :: d' => if FlightState_eqb k' k then Some v else getitem d' k
  end.

(** ** Module constants *)

Definition GUIDED_MODES : list string := ["GUIDED"; "OFFBOARD"].

Definition DEFAULT_CONTROL_LOOP_RATE : Z := 10.

(** [x in t] for a tuple of strings: some element compares equal. *)
Definition contains (t : list string) (x : string) : bool :=
  existsb (String.eqb x) t.

(** ** Messages *)

(** [mavros.msg.State], of which the node reads the field [mode]. *)
Record State : Type := { mode : string }.

(** ** The node object *)

Record CommanderNode : Type := {
  state      : FlightState;
  controller : option Controller
}.

Section Commander.

(** [lander.msg.TrackStamped]: never inspected by the node. *)
Variable TrackStamped : Type.

(** The four methods the node calls on a controller. *)
Inductive Method : Type :=
  | Enter | Exit | Run | HandleTrackMessage (msg : TrackStamped).

(** What the node does to the outside, one event per call. *)
Inductive Event : Type :=
  | InitNode (name : string)
  | Subscribe (topic : string)
  | LogInfo (fmt : string) (args : list FlightState)
  | Call (c : Controller) (m : Method)
  | SetVelocitySetpoint (v : Z * Z * Z * Z)
  | SetMode (name : string)
  | IsShutdown (answer : bool)
  | Sleep.

(** A message a subscriber callback receives. *)
Inductive Msg : Type :=
  | StateMsg (msg : State)
  | TrackMsg (msg : TrackStamped).

Inductive Exn : Type :=
  | ControllerError (c : Controller) (m : Method)
  | KeyError (k : FlightState)
  | AttributeError.

Record World : Type := {
  node  : CommanderNode;
  trace : list Event;
  clock : nat   (* sleeps of the control-loop rate so far *)
}.

(** The environment.  A controller method either returns or raises, which
    may depend on everything that happened before the call.  The shutdown
    flag and the messages that arrive are given per period of the
    control-loop rate: [callbacks n] are the messages whose callbacks run
    while the node sleeps for the [n]-th time. *)
Record Env : Type := {
  raises      : Controller -> Method -> list Event -> bool;
  shutdown_at : nat -> bool;
  callbacks   : nat -> list Msg
}.

Variable env : Env.

(** *** The monad *)

Inductive Result (A : Type) : Type :=
  | Ok (a : A)
  | Raise (e : Exn)
  | OutOfFuel.
Arguments Ok {A} a.
Arguments Raise {A} e.
Arguments OutOfFuel {A}.

Definition M (A : Type) : Type := World -> Result A * World.

Definition ret {A} (a : A) : M A := fun w => (Ok a, w).

Definition bind {A B} (m : M A) (f : A -> M B) : M B :=
  fun w =>
    match m w with
    | (Ok a, w')      => f a w'
    | (Raise e, w')   => (Raise e, w')
    | (OutOfFuel, w') => (OutOfFuel, w')
    end.

Definition raise {A} (e : Exn) : M A := fun w => (Raise e, w).

Definition out_of_fuel {A} : M A := fun w => (OutOfFuel, w).

Notation "x <- m ;; k" := (bind m (fun x => k))
  (at level 61, m at next level, right associativity).
Notation "m ;; k" := (bind m (fun _ => k))
  (at level 61, right associativity).

Definition record (e : Event) (w : World) : World :=
  {| node := node w; trace := trace w ++ [e]; clock := clock w |}.

Definition emit (e : Event) : M unit := fun w => (Ok tt, record e w).

Definition get_state : M FlightState := fun w => (Ok (state (node w)), w).

Definition get_controller : M (option Controller) :=
  fun w => (Ok (controller (node w)), w).

Definition set_state (s : FlightState) : M unit :=
  fun w =>
    (Ok tt, {| node  := {| state := s; controller := controller (node w) |};
               trace := trace w; clock := clock w |}).

Definition set_controller (c : option Controller) : M unit :=
  fun w =>
    (Ok tt, {| node  := {| state := state (node w); controller := c |};
               trace := trace w; clock := clock w |}).

(** *** The collaborators *)

Definition loginfo (fmt : string) (args : list FlightState) : M unit :=
  emit (LogInfo fmt args).

(** [c.m(...)] on a controller object. *)
Definition call (c : Controller) (m : Method) : M unit :=
  fun w =>
    if raises env c m (trace w)
    then (Raise (ControllerError c m), record (Call c m) w)
    else (Ok tt, record (Call c m) w).

(** [self.controller.m(...)]: [None] has no such attribute. *)
Definition call_active (m : Method) : M unit :=
  c <- get_controller ;;
  match c with
  | Some c => call c m
  | None   => raise AttributeError
  end.

(** The vehicle interface: commands are handed over and forgotten. *)
Definition set_velocity_setpoint (v : Z * Z * Z * Z) : M unit :=
  emit (SetVelocitySetpoint v).

Definition set_mode (name : string) : M unit := emit (SetMode name).

Definition is_shutdown : M bool :=
  fun w =>
    let b := shutdown_at env (clock w) in (Ok b, record (IsShutdown b) w).

(** *** CommanderNode *)

Definition transition_to_state (new_state : FlightState) : M unit :=
  old <- get_state ;;
  loginfo "STATE TRANSITION: %s --> %s" [old; new_state] ;;
  c <- get_controller ;;
  match c with
  | Some c => call c Exit
  | None   => ret tt
  end ;;
  set_state new_state ;;
  match getitem controllers new_state with
  | Some c' => set_controller (Some c') ;; call c' Enter
  | None    => raise (KeyError new_state)
  end.

Definition handle_state_message (msg : State) : M unit :=
  let mode := mode msg in
  s <- get_state ;;
  if contains GUIDED_MODES mode && FlightState_eqb s PENDING
  then transition_to_state SEEK
  else if negb (contains GUIDED_MODES mode)
          && negb (FlightState_eqb s PENDING)
  then transition_to_state PENDING
  else ret tt.

Definition handle_track_message (msg : TrackStamped) : M unit :=
  call_active (HandleTrackMessage msg).

Definition CommanderNode_init : M unit :=
  emit (InitNode "commander") ;;
  emit (Subscribe "/mavros/state") ;;
  emit (Subscribe "/tracker/track") ;;
  set_controller None ;;
  set_state INIT ;;
  transition_to_state PENDING.

(** A subscriber callback.  It runs on the node object; an exception it
    raises ends the callback, not the code that was sleeping. *)
Definition callback (m : Msg) (w : World) : World :=
  match m with
  | StateMsg msg => snd (handle_state_message msg w)
  | TrackMsg msg => snd (handle_track_message msg w)
  end.

Definition deliver (ms : list Msg) (w : World) : World :=
  fold_left (fun w m => callback m w) ms w.

(** [self.control_loop_rate.sleep()]: one period passes, during which the
    callbacks of the messages that arrive are run. *)
Definition sleep : M unit :=
  fun w =>
    (Ok tt,
     deliver (callbacks env (clock w))
       {| node := node w; trace := trace w ++ [Sleep];
          clock := S (clock w) |}).

(** The guard [self.state != FlightState.PENDING and not
    rospy.is_shutdown()]: [and] does not evaluate its right operand when
    the left one is false. *)
Definition still_waiting : M bool :=
  s <- get_state ;;
  if negb (FlightState_eqb s PENDING)
  then b <- is_shutdown ;; ret (negb b)
  else ret false.

(** The [while] loop of [relinquish_control]; [fuel] bounds the number of
    times the guard is evaluated. *)
Fixpoint wait_for_fcu (fuel : nat) : M unit :=
  match fuel with
  | O => out_of_fuel
  | S fuel' =>
      go <- still_waiting ;;
      if go then sleep ;; wait_for_fcu fuel' else ret tt
  end.

Definition relinquish_control (fuel : nat) : M unit :=
  loginfo "RELINQUISHING CONTROL" [] ;;
  set_velocity_setpoint (0, 0, 0, 0)%Z ;;
  set_mode "POSHOLD" ;;
  wait_for_fcu fuel.

(** The statement [self.controller.run()] of the control loop. *)
Definition on_tick : M unit := call_active Run.

Fixpoint run (fuel : nat) : M unit :=
  match fuel with
  | O => out_of_fuel
  | S fuel' =>
      b <- is_shutdown ;;
      if negb b then on_tick ;; sleep ;; run fuel' else ret tt
  end.

(** *** Vocabulary of the properties *)

(** The operations that reach a constructed node from outside. *)
Inductive Op : Type :=
  | OnFcuMode (msg : State)
  | OnTrackUpdate (msg : TrackStamped)
  | OnTick
  | RelinquishControl (fuel : nat).

Definition perform (op : Op) : M unit :=
  match op with
  | OnFcuMode msg         => handle_state_message msg
  | OnTrackUpdate msg     => handle_track_message msg
  | OnTick                => on_tick
  | RelinquishControl fuel => relinquish_control fuel
  end.

(** [self.controller] is a controller, and the one the registry has for
    [self.state]. *)
Definition registered (n : CommanderNode) : Prop :=
  controller n <> None /\ controller n = getitem controllers (state n).

(** The log line with which [transition_to_state new_state] starts. *)
Definition transition_log (w : World) (new_state : FlightState) : Event :=
  LogInfo "STATE TRANSITION: %s --> %s" [state (node w); new_state].

(** The call of [exit] a transition makes. *)
Definition exit_events (w : World) : list Event :=
  match controller (node w) with
  | Some c => [Call c Exit]
  | None   => []
  end.

(** Whether that call returns (there is none to fail without an active
    controller). *)
Definition exit_returns (w : World) (new_state : FlightState) : bool :=
  match controller (node w) with
  | Some c =>
      negb (raises env c Exit (trace w ++ [transition_log w new_state]))
  | None => true
  end.

Definition is_vehicle_command (e : Event) : bool :=
  match e with
  | SetVelocitySetpoint _ | SetMode _ => true
  | _ => false
  end.

Definition is_sleep (e : Event) : bool :=
  match e with
  | Sleep => true
  | _ => false
  end.

Definition is_poll (e : Event) : bool :=
  match e with
  | Sleep | IsShutdown _ => true
  | _ => false
  end.

(** Events that only a callback or a controller call leaves. *)
Definition is_dispatch (e : Event) : bool :=
  match e with
  | LogInfo _ _ | Call _ _ => true
  | _ => false
  end.

Definition sleeps (t : list Event) : nat := length (filter is_sleep t).

(** [w'] has the trace of [w] and, after it, only events of kind [P]. *)
Definition grows_by (P : Event -> bool) (w w' : World) : Prop :=
  exists evs, trace w' = trace w ++ evs /\ forallb P evs = true.

(** The value of the guard of the wait loop in a world. *)
Definition waiting (w : World) : bool :=
  negb (FlightState_eqb (state (node w)) PENDING)
  && negb (shutdown_at env (clock w)).

(** One turn of the wait loop: the guard, then the sleep. *)
Definition one_period (w : World) : World :=
  snd ((still_waiting ;; sleep) w).

Fixpoint periods (k : nat) (w : World) : World :=
  match k with
  | O => w
  | S k' => periods k' (one_period w)
  end.

(** The world in which [relinquish_control] starts to wait. *)
Definition commanded_stop (w : World) : World :=
  record (SetMode "POSHOLD")
    (record (SetVelocitySetpoint (0, 0, 0, 0)%Z)
       (record (LogInfo "RELINQUISHING CONTROL" []) w)).

(** The script part of the module: build the node, then spin.  The
    vehicle object it builds first is the interface behind the vehicle
    events. *)
Definition main (fuel : nat) : M unit :=
  CommanderNode_init ;; run fuel.

(** *** Every way into the node *)

(** A call of one of the node's methods from outside: one of the four
    operations, [transition_to_state] itself (the controllers are built
    with the node for that), or the control loop. *)
Inductive Entry : Type :=
  | Operation (op : Op)
  | Request (new_state : FlightState)
  | ControlLoop (fuel : nat).

Definition enter_by (e : Entry) : M unit :=
  match e with
  | Operation op      => perform op
  | Request new_state => transition_to_state new_state
  | ControlLoop fuel  => run fuel
  end.

(** A history of entries; an entry that raised has still run. *)
Definition history (es : list Entry) (w : World) : World :=
  fold_left (fun w e => snd (enter_by e w)) es w.

(** The calls of [enter] and [exit], and the last of them in a trace. *)
Definition lifecycle (e : Event) : option (Controller * Method) :=
  match e with
  | Call c Enter => Some (c, Enter)
  | Call c Exit  => Some (c, Exit)
  | _ => None
  end.

Fixpoint last_lifecycle (t : list Event) : option (Controller * Method) :=
  match t with
  | [] => None
  | e :: t' =>
      match last_lifecycle t' with
      | Some x => Some x
      | None   => lifecycle e
      end
  end.

Definition is_run (e : Event) : bool :=
  match e with
  | Call _ Run => true
  | _ => false
  end.

Definition runs (t : list Event) : nat := length (filter is_run t).

(** What a subscriber callback can leave in the trace. *)
Definition is_callback_event (e : Event) : bool :=
  match e with
  | LogInfo _ _ | Call _ Enter | Call _ Exit
  | Call _ (HandleTrackMessage _) => true
  | _ => false
  end.

(** One turn of the control loop: the shutdown query and the tick, then
    the sleep. *)
Definition ticked (w : World) : World := snd (on_tick (snd (is_shutdown w))).

Definition tick_period (w : World) : World := snd (sleep (ticked w)).

Fixpoint ticks (k : nat) (w : World) : World :=
  match k with
  | O => w
  | S k' => ticks k' (tick_period w)
  end.

End Commander.

Arguments Enter {TrackStamped}.
Arguments Exit {TrackStamped}.
Arguments Run {TrackStamped}.
Arguments HandleTrackMessage {TrackStamped} msg.
Arguments InitNode {TrackStamped} name.
Arguments Subscribe {TrackStamped} topic.
Arguments LogInfo {TrackStamped} fmt args.
Arguments Call {TrackStamped} c m.
Arguments SetVelocitySetpoint {TrackStamped} v.
Arguments SetMode {TrackStamped} name.
Arguments IsShutdown {TrackStamped} answer.
Arguments Sleep {TrackStamped}.
Arguments StateMsg {TrackStamped} msg.
Arguments TrackMsg {TrackStamped} msg.
Arguments ControllerError {TrackStamped} c m.
Arguments KeyError {TrackStamped} k.
Arguments AttributeError {TrackStamped}.
Arguments Ok {TrackStamped A} a.
Arguments Raise {TrackStamped A} e.
Arguments OutOfFuel {TrackStamped A}.
Arguments Build_World {TrackStamped} node trace clock.
Arguments node {TrackStamped} w.
Arguments trace {TrackStamped} w.
Arguments clock {TrackStamped} w.
Arguments Build_Env {TrackStamped} raises shutdown_at callbacks.
Arguments raises {TrackStamped} e c m t.
Arguments shutdown_at {TrackStamped} e n.
Arguments callbacks {TrackStamped} e n.
Arguments record {TrackStamped} e w.
Arguments call {TrackStamped} env c m w.
Arguments call_active {TrackStamped} env m w.
Arguments is_shutdown {TrackStamped} env w.
Arguments transition_to_state {TrackStamped} env new_state w.
Arguments handle_state_message {TrackStamped} env msg w.
Arguments handle_track_message {TrackStamped} env msg w.
Arguments CommanderNode_init {TrackStamped} env w.
Arguments callback {TrackStamped} env m w.
Arguments deliver {TrackStamped} env ms w.
Arguments sleep {TrackStamped} env w.
Arguments still_waiting {TrackStamped} env w.
Arguments wait_for_fcu {TrackStamped} env fuel w.
Arguments relinquish_control {TrackStamped} env fuel w.
Arguments on_tick {TrackStamped} env w.
Arguments run {TrackStamped} env fuel w.
Arguments OnFcuMode {TrackStamped} msg.
Arguments OnTrackUpdate {TrackStamped} msg.
Arguments OnTick {TrackStamped}.
Arguments RelinquishControl {TrackStamped} fuel.
Arguments perform {TrackStamped} env op w.
Arguments transition_log {TrackStamped} w new_state.
Arguments exit_events {TrackStamped} w.
Arguments exit_returns {TrackStamped} env w new_state.
Arguments is_vehicle_command {TrackStamped} e.
Arguments is_sleep {TrackStamped} e.
Arguments is_poll {TrackStamped} e.
Arguments is_dispatch {TrackStamped} e.
Arguments sleeps {TrackStamped} t.
Arguments grows_by {TrackStamped} P w w'.
Arguments waiting {TrackStamped} env w.
Arguments one_period {TrackStamped} env w.
Arguments periods {TrackStamped} env k w.
Arguments commanded_stop {TrackStamped} w.
Arguments Operation {TrackStamped} op.
Arguments Request {TrackStamped} new_state.
Arguments ControlLoop {TrackStamped} fuel.
Arguments enter_by {TrackStamped} env e w.
Arguments history {TrackStamped} env es w.
Arguments lifecycle {TrackStamped} e.
Arguments last_lifecycle {TrackStamped} t.
Arguments is_run {TrackStamped} e.
Arguments runs {TrackStamped} t.
Arguments is_callback_event {TrackStamped} e.
Arguments ticked {TrackStamped} env w.
Arguments tick_period {TrackStamped} env w.
Arguments ticks {TrackStamped} env k w.
Arguments main {TrackStamped} env fuel w.

(** ** Scenarios *)

(** Track messages of the scenarios are numbered. *)
Definition Track : Type := nat.

(** Nothing raises, nothing arrives, no shutdown. *)
Definition quiet : Env Track :=
  {| raises := fun _ _ _ => false;
     shutdown_at := fun _ => false;
     callbacks := fun _ => [] |}.

(** The [exit] of the seek controller raises. *)
Definition seek_exit_fails : Env Track :=
  {| raises := fun c m _ =>
       match c, m with
       | SeekController, Exit => true
       | _, _ => false
       end;
     shutdown_at := fun _ => false;
     callbacks := fun _ => [] |}.

(** The [enter] of the pending controller raises. *)
Definition pending_enter_fails : Env Track :=
  {| raises := fun c m _ =>
       match c, m with
       | PendingController, Enter => true
       | _, _ => false
       end;
     shutdown_at := fun _ => false;
     callbacks := fun _ => [] |}.

(** The FCU reports the hold mode during the second sleep. *)
Definition hold_after_two : Env Track :=
  {| raises := fun _ _ _ => false;
     shutdown_at := fun _ => false;
     callbacks := fun n =>
       match n with
       | 1 => [StateMsg {| mode := "POSHOLD" |}]
       | _ => []
       end |}.

Definition in_state (s : FlightState) (c : Controller) : World Track :=
  {| node := {| state := s; controller := Some c |};
     trace := []; clock := 0 |}.

Definition fresh : World Track :=
  {| node := {| state := INIT; controller := None |};
     trace := []; clock := 0 |}.

(** Shutdown is requested during the third sleep; GUIDED is reported during
    the first and a track message arrives during the second. *)
Definition three_periods : Env Track :=
  {| raises := fun _ _ _ => false;
     shutdown_at := fun n => Nat.leb 3 n;
     callbacks := fun n =>
       match n with
       | 0 => [StateMsg {| mode := "GUIDED" |}]
       | 1 => [TrackMsg 7]
       | _ => []
       end |}.

(** The same shutdown, and no message at all. *)
Definition three_silent_periods : Env Track :=
  {| raises := fun _ _ _ => false;
     shutdown_at := fun n => Nat.leb 3 n;
     callbacks := fun _ => [] |}.

(** Every controller's [run] raises from its second call on. *)
Definition second_run_fails : Env Track :=
  {| raises := fun _ m t =>
       match m with
       | Run => Nat.leb 1 (runs t)
       | _ => false
       end;
     shutdown_at := fun _ => false;
     callbacks := fun _ => [] |}.

(** * Properties *)

Section Properties.

Variable TrackStamped : Type.
Variable env : Env TrackStamped.

Implicit Types (w : World TrackStamped) (s : FlightState).
Implicit Types (t : list (Event TrackStamped)).

(** ** Comparisons and membership *)

Lemma FlightState_eqb_eq a b : FlightState_eqb a b = true <-> a = b.
Proof. destruct a, b; simpl; split; intros H; congruence. Qed.

Lemma FlightState_eqb_neq a b : FlightState_eqb a b = false <-> a <> b.
Proof. destruct a, b; simpl; split; intros H; congruence. Qed.

Lemma contains_In (l : list string) x : contains l x = true <-> In x l.
Proof.
  unfold contains. rewrite existsb_exists. split.
  - intros [y [Hy He]]. apply String.eqb_eq in He. now subst.
  - intros H. exists x. split; [assumption | apply String.eqb_refl].
Qed.

Lemma contains_not_In (l : list string) x :
  contains l x = false <-> ~ In x l.
Proof.
  rewrite <- contains_In. destruct (contains l x); split; congruence.
Qed.

Lemma getitem_controllers_INIT : getitem controllers INIT = None.
Proof. reflexivity. Qed.

Lemma getitem_controllers_Some s :
  s <> INIT -> exists c, getitem controllers s = Some c.
Proof. destruct s; intros H; try congruence; eexists; reflexivity. Qed.

(** ** Calls into a controller *)

Lemma call_world c m w : snd (call env c m w) = record (Call c m) w.
Proof. unfold call. now destruct (raises env c m (trace w)). Qed.

Lemma call_result c m w :
  fst (call env c m w)
  = if raises env c m (trace w) then Raise (ControllerError c m) else Ok tt.
Proof. unfold call. now destruct (raises env c m (trace w)). Qed.

(** ** The transition, case by case *)

(** A raising [exit] ends the call where it stands. *)
Lemma transition_exit_raises w new_state c :
  controller (node w) = Some c ->
  raises env c Exit (trace w ++ [transition_log w new_state]) = true ->
  transition_to_state env new_state w
  = (Raise (ControllerError c Exit),
     {| node := node w;
        trace := trace w ++ [transition_log w new_state; Call c Exit];
        clock := clock w |}).
Proof.
  intros Hc Hr.
  unfold transition_to_state, bind, get_state, loginfo, emit, get_controller.
  unfold record; cbn [node trace clock]. rewrite Hc. unfold call.
  cbn [node trace clock]. fold (transition_log w new_state).
  rewrite Hr. unfold record; cbn [node trace clock].
  now rewrite <- app_assoc.
Qed.

(** Otherwise the attributes are written and [enter] is called. *)
Lemma transition_exit_returns w new_state c' :
  getitem controllers new_state = Some c' ->
  exit_returns env w new_state = true ->
  transition_to_state env new_state w
  = call env c' Enter
      {| node := {| state := new_state; controller := Some c' |};
         trace := trace w ++ transition_log w new_state :: exit_events w;
         clock := clock w |}.
Proof.
  intros Hg Hr.
  unfold transition_to_state. rewrite Hg.
  unfold bind, get_state, loginfo, emit, get_controller.
  unfold record; cbn [node trace clock]. fold (transition_log w new_state).
  unfold exit_returns in Hr. unfold exit_events.
  destruct (controller (node w)) as [c|] eqn:Hc.
  - apply negb_true_iff in Hr. unfold call at 1.
    cbn [node trace clock]. rewrite Hr.
    unfold set_state, set_controller, record. cbn.
    now rewrite <- app_assoc.
  - unfold ret, set_state, set_controller. now cbn.
Qed.

(** Without a controller for the new state the lookup fails after
    [self.state] is written. *)
Lemma transition_unregistered w new_state :
  getitem controllers new_state = None ->
  exit_returns env w new_state = true ->
  transition_to_state env new_state w
  = (Raise (KeyError new_state),
     {| node := {| state := new_state; controller := controller (node w) |};
        trace := trace w ++ transition_log w new_state :: exit_events w;
        clock := clock w |}).
Proof.
  intros Hg Hr.
  unfold transition_to_state. rewrite Hg.
  unfold bind, get_state, loginfo, emit, get_controller.
  unfold record; cbn [node trace clock]. fold (transition_log w new_state).
  unfold exit_returns in Hr. unfold exit_events.
  destruct (controller (node w)) as [c|] eqn:Hc.
  - apply negb_true_iff in Hr. unfold call at 1.
    cbn [node trace clock]. rewrite Hr.
    unfold set_state, set_controller, raise, record. cbn.
    now rewrite Hc, <- app_assoc.
  - unfold ret, set_state, set_controller, raise. cbn. now rewrite Hc.
Qed.

Lemma exit_returns_false w new_state :
  exit_returns env w new_state = false ->
  exists c, controller (node w) = Some c
    /\ raises env c Exit (trace w ++ [transition_log w new_state]) = true.
Proof.
  unfold exit_returns. destruct (controller (node w)) as [c|]; [|discriminate].
  intros H. apply negb_false_iff in H. now exists c.
Qed.

(** ** Growth of the trace *)

Lemma grows_by_refl P w : grows_by P w w.
Proof. exists []. now rewrite app_nil_r. Qed.

Lemma grows_by_trans P w1 w2 w3 :
  grows_by P w1 w2 -> grows_by P w2 w3 -> grows_by P w1 w3.
Proof.
  intros [e1 [H1 F1]] [e2 [H2 F2]]. exists (e1 ++ e2). split.
  - now rewrite H2, H1, app_assoc.
  - now rewrite forallb_app, F1, F2.
Qed.

Lemma grows_by_weaken (P Q : Event TrackStamped -> bool) w w' :
  (forall e, P e = true -> Q e = true) ->
  grows_by P w w' -> grows_by Q w w'.
Proof.
  intros HPQ [evs [Ht HF]]. exists evs. split; [assumption|].
  rewrite forallb_forall in *. auto.
Qed.

Lemma grows_by_record P e w : P e = true -> grows_by P w (record e w).
Proof. intros H. exists [e]. cbn. now rewrite H. Qed.

Lemma grows_by_trace P w w' evs :
  trace w' = trace w ++ evs -> forallb P evs = true -> grows_by P w w'.
Proof. intros H1 H2. now exists evs. Qed.

(** ** What a transition leaves behind *)

Lemma transition_grows w new_state :
  grows_by is_dispatch w (snd (transition_to_state env new_state w)).
Proof.
  destruct (exit_returns env w new_state) eqn:Hr.
  - destruct (getitem controllers new_state) as [c'|] eqn:Hg.
    + rewrite (transition_exit_returns w new_state c' Hg Hr), call_world.
      eapply grows_by_trans; [|apply grows_by_record; reflexivity].
      eapply grows_by_trace; [reflexivity|].
      unfold exit_events. now destruct (controller (node w)).
    + rewrite (transition_unregistered w new_state Hg Hr).
      eapply grows_by_trace; [reflexivity|].
      unfold exit_events. now destruct (controller (node w)).
  - destruct (exit_returns_false w new_state Hr) as [c [Hc Hx]].
    rewrite (transition_exit_raises w new_state c Hc Hx).
    eapply grows_by_trace; reflexivity.
Qed.

Lemma transition_clock w new_state :
  clock (snd (transition_to_state env new_state w)) = clock w.
Proof.
  destruct (exit_returns env w new_state) eqn:Hr.
  - destruct (getitem controllers new_state) as [c'|] eqn:Hg.
    + now rewrite (transition_exit_returns w new_state c' Hg Hr), call_world.
    + now rewrite (transition_unregistered w new_state Hg Hr).
  - destruct (exit_returns_false w new_state Hr) as [c [Hc Hx]].
    now rewrite (transition_exit_raises w new_state c Hc Hx).
Qed.

(** A transition to a state of the registry re-establishes the link
    between [self.state] and [self.controller], or leaves both alone. *)
Lemma transition_registered w new_state c' :
  getitem controllers new_state = Some c' ->
  registered (node w) \/ controller (node w) = None ->
  registered (node (snd (transition_to_state env new_state w))).
Proof.
  intros Hg Hw.
  destruct (exit_returns env w new_state) eqn:Hr.
  - rewrite (transition_exit_returns w new_state c' Hg Hr), call_world.
    unfold registered, record; cbn [node state controller].
    rewrite Hg. split; congruence.
  - destruct (exit_returns_false w new_state Hr) as [c [Hc Hx]].
    rewrite (transition_exit_raises w new_state c Hc Hx). cbn.
    destruct Hw as [Hw|Hw]; [assumption | congruence].
Qed.

(** ** The mode handler *)

Lemma handle_state_message_eq msg w :
  handle_state_message env msg w
  = if contains GUIDED_MODES (mode msg)
       && FlightState_eqb (state (node w)) PENDING
    then transition_to_state env SEEK w
    else if negb (contains GUIDED_MODES (mode msg))
            && negb (FlightState_eqb (state (node w)) PENDING)
    then transition_to_state env PENDING w
    else (Ok tt, w).
Proof.
  unfold handle_state_message, bind, get_state, ret.
  destruct (contains GUIDED_MODES (mode msg));
    destruct (FlightState_eqb (state (node w)) PENDING); reflexivity.
Qed.

Lemma handle_state_message_guided msg w :
  In (mode msg) GUIDED_MODES -> state (node w) = PENDING ->
  handle_state_message env msg w = transition_to_state env SEEK w.
Proof.
  intros Hm Hs. rewrite handle_state_message_eq.
  apply contains_In in Hm. apply FlightState_eqb_eq in Hs.
  now rewrite Hm, Hs.
Qed.

Lemma handle_state_message_not_guided msg w :
  ~ In (mode msg) GUIDED_MODES -> state (node w) <> PENDING ->
  handle_state_message env msg w = transition_to_state env PENDING w.
Proof.
  intros Hm Hs. rewrite handle_state_message_eq.
  apply contains_not_In in Hm. apply FlightState_eqb_neq in Hs.
  now rewrite Hm, Hs.
Qed.

Lemma handle_state_message_idle msg w :
  (In (mode msg) GUIDED_MODES /\ state (node w) <> PENDING)
  \/ (~ In (mode msg) GUIDED_MODES /\ state (node w) = PENDING) ->
  handle_state_message env msg w = (Ok tt, w).
Proof.
  rewrite handle_state_message_eq.
  intros [[Hm Hs]|[Hm Hs]].
  - apply contains_In in Hm. apply FlightState_eqb_neq in Hs.
    now rewrite Hm, Hs.
  - apply contains_not_In in Hm. apply FlightState_eqb_eq in Hs.
    now rewrite Hm, Hs.
Qed.

Lemma handle_state_message_grows msg w :
  grows_by is_dispatch w (snd (handle_state_message env msg w)).
Proof.
  rewrite handle_state_message_eq.
  repeat match goal with |- context [if ?b then _ else _] => destruct b end;
    auto using transition_grows, grows_by_refl.
Qed.

Lemma handle_state_message_clock msg w :
  clock (snd (handle_state_message env msg w)) = clock w.
Proof.
  rewrite handle_state_message_eq.
  repeat match goal with |- context [if ?b then _ else _] => destruct b end;
    auto using transition_clock.
Qed.

Lemma handle_state_message_registered msg w :
  registered (node w) ->
  registered (node (snd (handle_state_message env msg w))).
Proof.
  intros Hw. rewrite handle_state_message_eq.
  repeat match goal with |- context [if ?b then _ else _] => destruct b end;
    try assumption;
    eapply transition_registered; try reflexivity; now left.
Qed.

(** ** Calls on the active controller *)

Lemma call_active_eq m w :
  call_active env m w
  = match controller (node w) with
    | Some c => call env c m w
    | None   => (Raise AttributeError, w)
    end.
Proof.
  unfold call_active, bind, get_controller, raise.
  now destruct (controller (node w)).
Qed.

Lemma call_active_node m w : node (snd (call_active env m w)) = node w.
Proof.
  rewrite call_active_eq. destruct (controller (node w)); [|reflexivity].
  now rewrite call_world.
Qed.

Lemma call_active_clock m w : clock (snd (call_active env m w)) = clock w.
Proof.
  rewrite call_active_eq. destruct (controller (node w)); [|reflexivity].
  now rewrite call_world.
Qed.

Lemma call_active_grows m w :
  grows_by is_dispatch w (snd (call_active env m w)).
Proof.
  rewrite call_active_eq. destruct (controller (node w)).
  - rewrite call_world. now apply grows_by_record.
  - apply grows_by_refl.
Qed.

(** ** Callbacks *)

Lemma callback_registered m w :
  registered (node w) -> registered (node (callback env m w)).
Proof.
  destruct m as [msg|msg]; cbn [callback]; intros H.
  - now apply handle_state_message_registered.
  - unfold handle_track_message. now rewrite call_active_node.
Qed.

Lemma callback_grows m w : grows_by is_dispatch w (callback env m w).
Proof.
  destruct m as [msg|msg]; cbn [callback].
  - apply handle_state_message_grows.
  - apply call_active_grows.
Qed.

Lemma callback_clock m w : clock (callback env m w) = clock w.
Proof.
  destruct m as [msg|msg]; cbn [callback].
  - apply handle_state_message_clock.
  - apply call_active_clock.
Qed.

Lemma deliver_cons m ms w :
  deliver env (m :: ms) w = deliver env ms (callback env m w).
Proof. reflexivity. Qed.

Lemma deliver_registered ms : forall w,
  registered (node w) -> registered (node (deliver env ms w)).
Proof.
  induction ms as [|m ms IH]; intros w H; [assumption|].
  rewrite deliver_cons. apply IH. now apply callback_registered.
Qed.

Lemma deliver_grows ms : forall w,
  grows_by is_dispatch w (deliver env ms w).
Proof.
  induction ms as [|m ms IH]; intros w; [apply grows_by_refl|].
  rewrite deliver_cons.
  eapply grows_by_trans; [apply callback_grows | apply IH].
Qed.

Lemma deliver_clock ms : forall w, clock (deliver env ms w) = clock w.
Proof.
  induction ms as [|m ms IH]; intros w; [reflexivity|].
  now rewrite deliver_cons, IH, callback_clock.
Qed.

(** ** Counting sleeps *)

Lemma sleeps_app t1 t2 : sleeps (t1 ++ t2) = sleeps t1 + sleeps t2.
Proof. unfold sleeps. now rewrite filter_app, length_app. Qed.

Lemma sleeps_dispatch t : forallb is_dispatch t = true -> sleeps t = 0.
Proof.
  induction t as [|e t IH]; [reflexivity|]. cbn [forallb].
  intros H. apply andb_true_iff in H as [He Ht].
  change (e :: t) with ([e] ++ t). rewrite sleeps_app, (IH Ht).
  now destruct e.
Qed.

Lemma sleeps_grows w w' :
  grows_by is_dispatch w w' -> sleeps (trace w') = sleeps (trace w).
Proof.
  intros [evs [Ht Hd]]. rewrite Ht, sleeps_app, (sleeps_dispatch evs Hd).
  lia.
Qed.

(** ** The wait loop, one turn at a time *)

Lemma still_waiting_result w : fst (still_waiting env w) = Ok (waiting env w).
Proof.
  unfold still_waiting, waiting, bind, get_state, is_shutdown, ret.
  now destruct (FlightState_eqb (state (node w)) PENDING).
Qed.

Lemma still_waiting_world w :
  snd (still_waiting env w)
  = if FlightState_eqb (state (node w)) PENDING then w
    else record (IsShutdown (shutdown_at env (clock w))) w.
Proof.
  unfold still_waiting, bind, get_state, is_shutdown, ret.
  now destruct (FlightState_eqb (state (node w)) PENDING).
Qed.

Lemma still_waiting_node w : node (snd (still_waiting env w)) = node w.
Proof.
  rewrite still_waiting_world.
  now destruct (FlightState_eqb (state (node w)) PENDING).
Qed.

Lemma still_waiting_clock w : clock (snd (still_waiting env w)) = clock w.
Proof.
  rewrite still_waiting_world.
  now destruct (FlightState_eqb (state (node w)) PENDING).
Qed.

Lemma still_waiting_grows w :
  grows_by (fun e => is_poll e && negb (is_sleep e))
    w (snd (still_waiting env w)).
Proof.
  rewrite still_waiting_world.
  destruct (FlightState_eqb (state (node w)) PENDING).
  - apply grows_by_refl.
  - now apply grows_by_record.
Qed.

Lemma still_waiting_sleeps w :
  sleeps (trace (snd (still_waiting env w))) = sleeps (trace w).
Proof.
  rewrite still_waiting_world.
  destruct (FlightState_eqb (state (node w)) PENDING); [reflexivity|].
  cbn [record trace]. rewrite sleeps_app. cbn. lia.
Qed.

Lemma sleep_registered w :
  registered (node w) -> registered (node (snd (sleep env w))).
Proof. intros H. unfold sleep. cbn [snd]. now apply deliver_registered. Qed.

Lemma sleep_clock w : clock (snd (sleep env w)) = S (clock w).
Proof. unfold sleep. cbn [snd]. now rewrite deliver_clock. Qed.

Lemma sleep_sleeps w :
  sleeps (trace (snd (sleep env w))) = S (sleeps (trace w)).
Proof.
  unfold sleep. cbn [snd]. rewrite (sleeps_grows _ _ (deliver_grows _ _)).
  cbn [trace]. rewrite sleeps_app. cbn. lia.
Qed.

Lemma sleep_grows w :
  grows_by (fun e => negb (is_vehicle_command e)) w (snd (sleep env w)).
Proof.
  unfold sleep. cbn [snd].
  eapply grows_by_trans;
    [| eapply grows_by_weaken; [|apply deliver_grows]].
  - eapply grows_by_trace; reflexivity.
  - now intros [].
Qed.

Lemma one_period_eq w :
  one_period env w = snd (sleep env (snd (still_waiting env w))).
Proof.
  unfold one_period, bind.
  pose proof (still_waiting_result w) as Hr.
  destruct (still_waiting env w) as [r w1]. cbn [fst snd] in *.
  now rewrite Hr.
Qed.

Lemma one_period_registered w :
  registered (node w) -> registered (node (one_period env w)).
Proof.
  intros H. rewrite one_period_eq. apply sleep_registered.
  now rewrite still_waiting_node.
Qed.

Lemma one_period_clock w : clock (one_period env w) = S (clock w).
Proof. now rewrite one_period_eq, sleep_clock, still_waiting_clock. Qed.

Lemma one_period_sleeps w :
  sleeps (trace (one_period env w)) = S (sleeps (trace w)).
Proof. now rewrite one_period_eq, sleep_sleeps, still_waiting_sleeps. Qed.

Lemma one_period_grows w :
  grows_by (fun e => negb (is_vehicle_command e)) w (one_period env w).
Proof.
  rewrite one_period_eq.
  eapply grows_by_trans; [|apply sleep_grows].
  eapply grows_by_weaken; [|apply still_waiting_grows].
  now intros [].
Qed.

Lemma wait_for_fcu_step fuel w :
  wait_for_fcu env (S fuel) w
  = if waiting env w
    then wait_for_fcu env fuel (one_period env w)
    else (Ok tt, snd (still_waiting env w)).
Proof.
  rewrite one_period_eq. cbn [wait_for_fcu]. unfold bind at 1.
  pose proof (still_waiting_result w) as Hr.
  destruct (still_waiting env w) as [r w1]. cbn [fst snd] in *.
  rewrite Hr. destruct (waiting env w); [|reflexivity].
  unfold bind, sleep. reflexivity.
Qed.

Lemma periods_succ k w :
  periods env (S k) w = one_period env (periods env k w).
Proof.
  revert w. induction k as [|k IH]; intros w; [reflexivity|].
  change (periods env (S (S k)) w) with (periods env (S k) (one_period env w)).
  now rewrite IH.
Qed.

Lemma periods_registered k w :
  registered (node w) -> registered (node (periods env k w)).
Proof.
  induction k as [|k IH]; intros H; [assumption|].
  rewrite periods_succ. now apply one_period_registered, IH.
Qed.

Lemma periods_clock k w : clock (periods env k w) = clock w + k.
Proof.
  induction k as [|k IH]; [cbn; lia|].
  rewrite periods_succ, one_period_clock, IH. lia.
Qed.

Lemma periods_sleeps k w :
  sleeps (trace (periods env k w)) = sleeps (trace w) + k.
Proof.
  induction k as [|k IH]; [cbn; lia|].
  rewrite periods_succ, one_period_sleeps, IH. lia.
Qed.

(** The loop runs through the turns whose guard holds and returns at the
    first one whose guard fails. *)
Lemma wait_for_fcu_unroll k : forall fuel w,
  k < fuel ->
  (forall j, j < k -> waiting env (periods env j w) = true) ->
  waiting env (periods env k w) = false ->
  wait_for_fcu env fuel w
  = (Ok tt, snd (still_waiting env (periods env k w))).
Proof.
  induction k as [|k IH]; intros fuel w Hf Hbefore Hthen.
  - destruct fuel as [|fuel]; [lia|].
    rewrite wait_for_fcu_step. cbn [periods] in Hthen. now rewrite Hthen.
  - destruct fuel as [|fuel]; [lia|].
    rewrite wait_for_fcu_step.
    pose proof (Hbefore 0 ltac:(lia)) as H0. cbn [periods] in H0.
    rewrite H0. cbn [periods] in Hthen. apply IH; [lia| |assumption].
    intros j Hj. apply (Hbefore (S j)). lia.
Qed.

(** Whatever the fuel, the loop issues no vehicle command and keeps the
    registry link. *)
Lemma wait_for_fcu_grows fuel : forall w,
  grows_by (fun e => negb (is_vehicle_command e))
    w (snd (wait_for_fcu env fuel w)).
Proof.
  induction fuel as [|fuel IH]; intros w; [apply grows_by_refl|].
  rewrite wait_for_fcu_step. destruct (waiting env w).
  - eapply grows_by_trans; [apply one_period_grows | apply IH].
  - cbn [snd]. eapply grows_by_weaken; [|apply still_waiting_grows].
    now intros [].
Qed.

Lemma wait_for_fcu_registered fuel : forall w,
  registered (node w) ->
  registered (node (snd (wait_for_fcu env fuel w))).
Proof.
  induction fuel as [|fuel IH]; intros w H; [assumption|].
  rewrite wait_for_fcu_step. destruct (waiting env w).
  - now apply IH, one_period_registered.
  - cbn [snd]. now rewrite still_waiting_node.
Qed.

Lemma relinquish_control_eq fuel w :
  relinquish_control env fuel w = wait_for_fcu env fuel (commanded_stop w).
Proof. reflexivity. Qed.

(** ** The control loop *)

Lemma run_registered fuel : forall w,
  registered (node w) -> registered (node (snd (run env fuel w))).
Proof.
  induction fuel as [|fuel IH]; intros w H; [assumption|].
  cbn [run]. unfold bind at 1, is_shutdown at 1.
  destruct (shutdown_at env (clock w)); cbn [negb]; [assumption|].
  unfold bind at 1.
  pose proof (call_active_node Run (record (IsShutdown false) w)) as Hn.
  unfold on_tick.
  destruct (call_active env Run (record (IsShutdown false) w))
    as [[[]| |] w1]; cbn [snd] in *; try (now rewrite Hn).
  unfold bind, sleep. apply IH, deliver_registered. cbn [node].
  now rewrite Hn.
Qed.

(** ** Histories of operations *)

Lemma perform_registered op w :
  registered (node w) -> registered (node (snd (perform env op w))).
Proof.
  destruct op as [msg|msg| |fuel]; cbn [perform]; intros H.
  - now apply handle_state_message_registered.
  - unfold handle_track_message. now rewrite call_active_node.
  - unfold on_tick. now rewrite call_active_node.
  - rewrite relinquish_control_eq. now apply wait_for_fcu_registered.
Qed.

Lemma registered_not_INIT n : registered n -> state n <> INIT.
Proof.
  intros [Hsome Hlink] Hs. rewrite Hs in Hlink. cbn in Hlink. congruence.
Qed.

(** ** Construction *)

Lemma CommanderNode_init_eq w :
  CommanderNode_init env w
  = call env PendingController Enter
      {| node := {| state := PENDING;
                    controller := Some PendingController |};
         trace := trace w
                  ++ [InitNode "commander"; Subscribe "/mavros/state";
                      Subscribe "/tracker/track";
                      LogInfo "STATE TRANSITION: %s --> %s" [INIT; PENDING]];
         clock := clock w |}.
Proof.
  unfold CommanderNode_init, bind, emit, set_controller, set_state.
  cbn [record node trace clock state controller].
  rewrite (transition_exit_returns _ PENDING PendingController);
    [|reflexivity|reflexivity].
  unfold exit_events, transition_log. cbn [node trace clock state controller].
  repeat rewrite <- app_assoc. reflexivity.
Qed.


(** ** The Commander's contract *)

(** C1. The mode handler is a three-way table.  A guided mode in
    [PENDING] performs the transition to [SEEK]: when the [exit] of the
    active controller returns, the node is then in [SEEK] with the seek
    controller, after the log line, that [exit] and the [enter] of the seek
    controller.  A mode that is not guided in any state other than
    [PENDING] performs the transition to [PENDING], with the pending
    controller, in the same way.  In the two remaining combinations the
    handler returns without touching the node, the trace or the clock. *)
Theorem mode_event_table msg w :
  (In (mode msg) GUIDED_MODES -> state (node w) = PENDING ->
     handle_state_message env msg w = transition_to_state env SEEK w
     /\ (exit_returns env w SEEK = true ->
         let w' := snd (handle_state_message env msg w) in
         state (node w') = SEEK
         /\ controller (node w') = Some SeekController
         /\ trace w'
            = trace w ++ transition_log w SEEK
                :: exit_events w ++ [Call SeekController Enter]))
  /\ (~ In (mode msg) GUIDED_MODES -> state (node w) <> PENDING ->
     handle_state_message env msg w = transition_to_state env PENDING w
     /\ (exit_returns env w PENDING = true ->
         let w' := snd (handle_state_message env msg w) in
         state (node w') = PENDING
         /\ controller (node w') = Some PendingController
         /\ trace w'
            = trace w ++ transition_log w PENDING
                :: exit_events w ++ [Call PendingController Enter]))
  /\ ((In (mode msg) GUIDED_MODES /\ state (node w) <> PENDING)
      \/ (~ In (mode msg) GUIDED_MODES /\ state (node w) = PENDING) ->
     handle_state_message env msg w = (Ok tt, w)).
Proof.
  split; [|split].
  - intros Hm Hs. rewrite (handle_state_message_guided msg w Hm Hs).
    split; [reflexivity|]. intros Hr.
    rewrite (transition_exit_returns w SEEK SeekController eq_refl Hr).
    rewrite call_world. unfold record. cbn [node trace state controller].
    repeat split. now rewrite <- app_assoc.
  - intros Hm Hs. rewrite (handle_state_message_not_guided msg w Hm Hs).
    split; [reflexivity|]. intros Hr.
    rewrite (transition_exit_returns w PENDING PendingController eq_refl Hr).
    rewrite call_world. unfold record. cbn [node trace state controller].
    repeat split. now rewrite <- app_assoc.
  - apply handle_state_message_idle.
Qed.

(** C2, as the code has it.  A transition to a state of the registry
    logs the old and the new state and then calls [exit] on the active
    controller, if there is one.  If that call returns (or there is no
    active controller), the call writes [self.state] and
    [self.controller] and last calls [enter] on the new controller; the
    attributes are written whether or not that [enter] raises.  If the
    [exit] raises, the call ends there: the attributes are as before and
    [enter] is not called.  So the [exit] comes before the writes, and the
    writes before the [enter]. *)
Theorem transition_protocol w new_state c' :
  getitem controllers new_state = Some c' ->
  let r := transition_to_state env new_state w in
  (exit_returns env w new_state = true ->
     trace (snd r)
     = trace w ++ transition_log w new_state
         :: exit_events w ++ [Call c' Enter]
     /\ state (node (snd r)) = new_state
     /\ controller (node (snd r)) = Some c'
     /\ clock (snd r) = clock w
     /\ fst r
        = if raises env c' Enter
               (trace w ++ transition_log w new_state :: exit_events w)
          then Raise (ControllerError c' Enter) else Ok tt)
  /\ (exit_returns env w new_state = false ->
      exists c,
        controller (node w) = Some c
        /\ fst r = Raise (ControllerError c Exit)
        /\ trace (snd r)
           = trace w ++ [transition_log w new_state; Call c Exit]
        /\ node (snd r) = node w
        /\ clock (snd r) = clock w).
Proof.
  intros Hg r. subst r. split; intros Hr.
  - rewrite (transition_exit_returns w new_state c' Hg Hr).
    rewrite call_world, call_result.
    unfold record; cbn [node trace clock state controller].
    repeat split. now rewrite <- app_assoc.
  - destruct (exit_returns_false w new_state Hr) as [c [Hc Hx]].
    exists c. rewrite (transition_exit_raises w new_state c Hc Hx).
    repeat split. exact Hc.
Qed.

(** C3, as the code has it.  A controller error during a transition is
    not caught: it leaves the call as it is raised.  When [exit] raises,
    the call has logged the transition and called [exit], and
    [self.state] and [self.controller] are as before.  When [exit]
    returns and [enter] raises, both attributes already hold the new
    state and its controller.  In neither case is anything further
    logged. *)
Theorem transition_failure_propagates w new_state c' :
  getitem controllers new_state = Some c' ->
  let r := transition_to_state env new_state w in
  (forall c, controller (node w) = Some c ->
     raises env c Exit (trace w ++ [transition_log w new_state]) = true ->
     fst r = Raise (ControllerError c Exit)
     /\ node (snd r) = node w
     /\ trace (snd r)
        = trace w ++ [transition_log w new_state; Call c Exit])
  /\ (exit_returns env w new_state = true ->
      raises env c' Enter
        (trace w ++ transition_log w new_state :: exit_events w) = true ->
      fst r = Raise (ControllerError c' Enter)
      /\ state (node (snd r)) = new_state
      /\ controller (node (snd r)) = Some c'
      /\ trace (snd r)
         = trace w ++ transition_log w new_state
             :: exit_events w ++ [Call c' Enter]).
Proof.
  intros Hg r. subst r. split.
  - intros c Hc Hx.
    rewrite (transition_exit_raises w new_state c Hc Hx).
    repeat split.
  - intros Hr Hx.
    rewrite (transition_exit_returns w new_state c' Hg Hr).
    rewrite call_result, call_world. cbn [trace]. rewrite Hx.
    unfold record; cbn [node trace clock state controller].
    repeat split. now rewrite <- app_assoc.
Qed.

(** C6. In every state, [relinquish_control] first logs, then commands
    the velocity setpoint (0, 0, 0, 0), then commands the mode POSHOLD,
    touching neither the node nor a controller, and only then enters the
    wait loop; nothing the loop does, for however long it runs, is a
    vehicle command, so each of the two is issued once, before the first
    poll. *)
Theorem relinquish_commands_before_polling fuel w :
  relinquish_control env fuel w = wait_for_fcu env fuel (commanded_stop w)
  /\ node (commanded_stop w) = node w
  /\ trace (commanded_stop w)
     = trace w ++ [LogInfo "RELINQUISHING CONTROL" [];
                   SetVelocitySetpoint (0, 0, 0, 0)%Z;
                   SetMode "POSHOLD"]
  /\ exists rest,
       trace (snd (relinquish_control env fuel w))
       = trace (commanded_stop w) ++ rest
       /\ forallb (fun e => negb (is_vehicle_command e)) rest = true.
Proof.
  split; [reflexivity|]. split; [reflexivity|]. split.
  - unfold commanded_stop, record. cbn [trace].
    now repeat rewrite <- app_assoc.
  - rewrite relinquish_control_eq. apply wait_for_fcu_grows.
Qed.

(** C7. Let the guard of the wait loop hold at its first [k] evaluations
    and fail at the next, because the state is [PENDING] or shutdown is
    requested.  Then [relinquish_control], given fuel for more than [k]
    evaluations, returns; it has slept exactly [k] times; and after the
    world in which the guard failed it does nothing but, when the state is
    not [PENDING], the one shutdown query that failed the guard: no sleep
    follows. *)
Theorem relinquish_returns_at_first_lapse k fuel w :
  k < fuel ->
  (forall j, j < k ->
     waiting env (periods env j (commanded_stop w)) = true) ->
  waiting env (periods env k (commanded_stop w)) = false ->
  let seen := periods env k (commanded_stop w) in
  exists w',
    relinquish_control env fuel w = (Ok tt, w')
    /\ node w' = node seen
    /\ clock w' = clock w + k
    /\ sleeps (trace w') = sleeps (trace w) + k
    /\ (state (node seen) = PENDING -> w' = seen)
    /\ exists tail, trace w' = trace seen ++ tail /\ sleeps tail = 0.
Proof.
  intros Hf Hbefore Hthen seen.
  exists (snd (still_waiting env seen)).
  split; [|split; [|split; [|split; [|split]]]].
  - rewrite relinquish_control_eq. now apply wait_for_fcu_unroll.
  - apply still_waiting_node.
  - subst seen. now rewrite still_waiting_clock, periods_clock.
  - subst seen. rewrite still_waiting_sleeps, periods_sleeps.
    unfold commanded_stop, record. cbn [trace].
    repeat rewrite sleeps_app. cbn. lia.
  - intros Hs. rewrite still_waiting_world.
    apply FlightState_eqb_eq in Hs. now rewrite Hs.
  - destruct (still_waiting_grows seen) as [tail [Ht Hp]].
    exists tail. split; [assumption|].
    clear Ht. induction tail as [|e tail IH]; [reflexivity|].
    cbn [forallb] in Hp. apply andb_true_iff in Hp as [He Hp].
    change (e :: tail) with ([e] ++ tail).
    rewrite sleeps_app, (IH Hp). now destruct e.
Qed.

(** C8. A mode is taken as guided exactly when it is one of
    [GUIDED_MODES], that is GUIDED or OFFBOARD.  Any other string,
    received in a state other than [PENDING], makes the handler perform
    the transition to [PENDING], which leaves the state at [PENDING] when
    the [exit] of the active controller returns. *)
Theorem guided_iff_member :
  (forall m, contains GUIDED_MODES m = true <-> In m GUIDED_MODES)
  /\ (forall m, In m GUIDED_MODES <-> m = "GUIDED" \/ m = "OFFBOARD")
  /\ (forall msg w,
        ~ In (mode msg) GUIDED_MODES -> state (node w) <> PENDING ->
        handle_state_message env msg w = transition_to_state env PENDING w
        /\ (exit_returns env w PENDING = true ->
            state (node (snd (handle_state_message env msg w))) = PENDING)).
Proof.
  split; [|split].
  - intros m. apply contains_In.
  - intros m. cbn. intuition congruence.
  - intros msg w Hm Hs.
    rewrite (handle_state_message_not_guided msg w Hm Hs).
    split; [reflexivity|]. intros Hr.
    rewrite (transition_exit_returns w PENDING PendingController);
      [|reflexivity|assumption].
    now rewrite call_world.
Qed.

(** C9. On a node whose controller is the registry's entry for its state,
    the track handler makes one call, [handle_track_message] of that
    controller with the message it was given, and does nothing else: the
    node and the clock are as before and the trace is longer by that one
    call. *)
Theorem track_forwarded_to_active msg w :
  registered (node w) ->
  exists c,
    getitem controllers (state (node w)) = Some c
    /\ controller (node w) = Some c
    /\ snd (handle_track_message env msg w)
       = {| node := node w;
            trace := trace w ++ [Call c (HandleTrackMessage msg)];
            clock := clock w |}.
Proof.
  intros [Hsome Hlink].
  destruct (controller (node w)) as [c|] eqn:Hc; [|congruence].
  exists c. split; [now symmetry|]. split; [reflexivity|].
  unfold handle_track_message. rewrite call_active_eq, Hc.
  now rewrite call_world.
Qed.

(** C10. The mode [relinquish_control] commands, POSHOLD, is not one of
    [GUIDED_MODES].  So in any state other than [PENDING] the mode handler,
    given that mode, performs the transition to [PENDING]; when the [exit]
    of the active controller returns the state is then [PENDING], the
    guard of the wait loop fails, and the loop returns at once. *)
Theorem hold_mode_ends_wait :
  contains GUIDED_MODES "POSHOLD" = false
  /\ (forall fuel w,
        In (SetMode "POSHOLD") (trace (snd (relinquish_control env fuel w))))
  /\ (forall w,
        state (node w) <> PENDING ->
        let r := handle_state_message env {| mode := "POSHOLD" |} w in
        r = transition_to_state env PENDING w
        /\ (exit_returns env w PENDING = true ->
            state (node (snd r)) = PENDING
            /\ waiting env (snd r) = false
            /\ forall fuel,
                 wait_for_fcu env (S fuel) (snd r) = (Ok tt, snd r))).
Proof.
  split; [reflexivity|]. split.
  - intros fuel w. rewrite relinquish_control_eq.
    destruct (wait_for_fcu_grows fuel (commanded_stop w)) as [rest [Ht _]].
    rewrite Ht. apply in_or_app. left.
    unfold commanded_stop, record. cbn [trace].
    apply in_or_app. right. now left.
  - intros w Hs r. subst r.
    assert (Hm : ~ In (mode {| mode := "POSHOLD" |}) GUIDED_MODES).
    { apply contains_not_In. reflexivity. }
    rewrite (handle_state_message_not_guided _ w Hm Hs).
    split; [reflexivity|]. intros Hr.
    rewrite (transition_exit_returns w PENDING PendingController);
      [|reflexivity|assumption].
    rewrite call_world.
    split; [reflexivity|]. split; [reflexivity|].
    intros fuel. rewrite wait_for_fcu_step.
    unfold waiting, record; cbn [node state]. cbn [FlightState_eqb negb andb].
    rewrite still_waiting_world. reflexivity.
Qed.

(** ** Beyond the contract: transitions and mode reports *)

Lemma getitem_controllers_None s : getitem controllers s = None <-> s = INIT.
Proof. destruct s; cbn; split; congruence. Qed.

(** [INIT] is the one state without a controller.  A transition to a state
    without one, once the [exit] of the active controller has returned,
    writes [self.state] and then fails on the registry lookup: it raises
    [KeyError], [enter] is not called, [self.controller] is still the
    controller that was just left, and the node no longer has the
    controller of its state. *)
Theorem transition_outside_registry w new_state :
  (getitem controllers new_state = None <-> new_state = INIT)
  /\ (getitem controllers new_state = None ->
      exit_returns env w new_state = true ->
      let r := transition_to_state env new_state w in
      fst r = Raise (KeyError new_state)
      /\ state (node (snd r)) = new_state
      /\ controller (node (snd r)) = controller (node w)
      /\ trace (snd r)
         = trace w ++ transition_log w new_state :: exit_events w
      /\ ~ registered (node (snd r))).
Proof.
  split; [apply getitem_controllers_None|].
  intros Hg Hr r. subst r.
  rewrite (transition_unregistered w new_state Hg Hr). cbn [fst snd].
  repeat split.
  intros [Hsome Hlink]. cbn [node state controller] in *.
  rewrite Hg in Hlink. contradiction.
Qed.

(** A mode report that is repeated does nothing the second time, unless
    the first one failed in the [exit] of the active controller. *)
Theorem repeated_mode_report_is_idle msg w :
  (forall c,
     fst (handle_state_message env msg w) <> Raise (ControllerError c Exit)) ->
  handle_state_message env msg (snd (handle_state_message env msg w))
  = (Ok tt, snd (handle_state_message env msg w)).
Proof.
  intros Hfirst.
  destruct (contains GUIDED_MODES (mode msg)) eqn:Hm;
    destruct (FlightState_eqb (state (node w)) PENDING) eqn:Hs.
  - (* guided, PENDING: the program starts *)
    apply contains_In in Hm. apply FlightState_eqb_eq in Hs.
    rewrite (handle_state_message_guided msg w Hm Hs) in *.
    destruct (exit_returns env w SEEK) eqn:Hr.
    + rewrite (transition_exit_returns w SEEK SeekController eq_refl Hr).
      apply handle_state_message_idle. left. split; [assumption|].
      rewrite call_world. discriminate.
    + destruct (exit_returns_false w SEEK Hr) as [c [Hc Hx]].
      rewrite (transition_exit_raises w SEEK c Hc Hx) in Hfirst.
      now destruct (Hfirst c).
  - apply handle_state_message_idle. apply contains_In in Hm.
    apply FlightState_eqb_neq in Hs.
    rewrite (handle_state_message_idle msg w); cbn [snd]; now left.
  - apply handle_state_message_idle. apply contains_not_In in Hm.
    apply FlightState_eqb_eq in Hs.
    rewrite (handle_state_message_idle msg w); cbn [snd]; now right.
  - (* not guided, not PENDING: the program ends *)
    apply contains_not_In in Hm. apply FlightState_eqb_neq in Hs.
    rewrite (handle_state_message_not_guided msg w Hm Hs) in *.
    destruct (exit_returns env w PENDING) eqn:Hr.
    + rewrite (transition_exit_returns w PENDING PendingController
                 eq_refl Hr).
      apply handle_state_message_idle. right. split; [assumption|].
      now rewrite call_world.
    + destruct (exit_returns_false w PENDING Hr) as [c [Hc Hx]].
      rewrite (transition_exit_raises w PENDING c Hc Hx) in Hfirst.
      now destruct (Hfirst c).
Qed.

Lemma transition_fails_in_exit w new_state c' c :
  getitem controllers new_state = Some c' ->
  fst (transition_to_state env new_state w) = Raise (ControllerError c Exit) ->
  controller (node w) = Some c
  /\ node (snd (transition_to_state env new_state w)) = node w.
Proof.
  intros Hg Hfail.
  destruct (exit_returns env w new_state) eqn:Hr.
  - rewrite (transition_exit_returns w new_state c' Hg Hr), call_result
      in Hfail.
    destruct (raises env c' Enter _); discriminate.
  - destruct (exit_returns_false w new_state Hr) as [c0 [Hc Hx]].
    rewrite (transition_exit_raises w new_state c0 Hc Hx) in *.
    cbn [fst snd node] in *. split; [congruence | reflexivity].
Qed.

(** When a mode report fails in the [exit] of the active controller, the
    node is as it was, with that controller still active, so the same report
    makes the handler attempt the same transition again. *)
Theorem failed_exit_is_attempted_again msg w c :
  fst (handle_state_message env msg w) = Raise (ControllerError c Exit) ->
  let w' := snd (handle_state_message env msg w) in
  node w' = node w
  /\ controller (node w) = Some c
  /\ exists target,
       handle_state_message env msg w = transition_to_state env target w
       /\ handle_state_message env msg w' = transition_to_state env target w'.
Proof.
  intros Hfail w'. subst w'.
  destruct (contains GUIDED_MODES (mode msg)) eqn:Hm;
    destruct (FlightState_eqb (state (node w)) PENDING) eqn:Hs.
  - apply contains_In in Hm. apply FlightState_eqb_eq in Hs.
    rewrite (handle_state_message_guided msg w Hm Hs) in *.
    destruct (transition_fails_in_exit w SEEK SeekController c eq_refl Hfail)
      as [Hc Hn].
    split; [assumption|]. split; [assumption|].
    exists SEEK. split; [reflexivity|].
    apply handle_state_message_guided; [assumption | now rewrite Hn].
  - apply contains_In in Hm. apply FlightState_eqb_neq in Hs.
    rewrite (handle_state_message_idle msg w) in Hfail;
      [discriminate | now left].
  - apply contains_not_In in Hm. apply FlightState_eqb_eq in Hs.
    rewrite (handle_state_message_idle msg w) in Hfail;
      [discriminate | now right].
  - apply contains_not_In in Hm. apply FlightState_eqb_neq in Hs.
    rewrite (handle_state_message_not_guided msg w Hm Hs) in *.
    destruct (transition_fails_in_exit w PENDING PendingController c
                eq_refl Hfail) as [Hc Hn].
    split; [assumption|]. split; [assumption|].
    exists PENDING. split; [reflexivity|].
    apply handle_state_message_not_guided; [assumption | now rewrite Hn].
Qed.

(** ** Beyond the contract: the wait of [relinquish_control] *)

Lemma waiting_still_waiting w :
  waiting env (snd (still_waiting env w)) = waiting env w.
Proof.
  unfold waiting. now rewrite still_waiting_node, still_waiting_clock.
Qed.

Lemma wait_for_fcu_returned fuel : forall w,
  fst (wait_for_fcu env fuel w) = Ok tt ->
  waiting env (snd (wait_for_fcu env fuel w)) = false.
Proof.
  induction fuel as [|fuel IH]; intros w; [discriminate|].
  rewrite wait_for_fcu_step. destruct (waiting env w) eqn:Hw.
  - apply IH.
  - intros _. cbn [snd]. now rewrite waiting_still_waiting.
Qed.

Lemma wait_for_fcu_running fuel : forall w,
  fst (wait_for_fcu env fuel w) = OutOfFuel <->
  forall j, j < fuel -> waiting env (periods env j w) = true.
Proof.
  induction fuel as [|fuel IH]; intros w.
  - split; [intros _ j Hj; lia | reflexivity].
  - rewrite wait_for_fcu_step. destruct (waiting env w) eqn:Hw.
    + rewrite IH. split.
      * intros H j Hj. destruct j as [|j]; [assumption|].
        cbn [periods]. apply H. lia.
      * intros H j Hj. apply (H (S j)). lia.
    + split; [discriminate|].
      intros H. specialize (H 0 ltac:(lia)). cbn [periods] in H. congruence.
Qed.

Lemma wait_for_fcu_running_world fuel : forall w,
  fst (wait_for_fcu env fuel w) = OutOfFuel ->
  snd (wait_for_fcu env fuel w) = periods env fuel w.
Proof.
  induction fuel as [|fuel IH]; intros w; [reflexivity|].
  rewrite wait_for_fcu_step. destruct (waiting env w); [|discriminate].
  cbn [periods]. apply IH.
Qed.

(** When [relinquish_control] returns, the state is [PENDING] or shutdown
    has been requested: a return alone does not say that the FCU took the
    hold mode. *)
Theorem relinquish_control_returns_in_PENDING_or_shutdown fuel w :
  fst (relinquish_control env fuel w) = Ok tt ->
  let w' := snd (relinquish_control env fuel w) in
  state (node w') = PENDING \/ shutdown_at env (clock w') = true.
Proof.
  rewrite relinquish_control_eq. intros Hret w'. subst w'.
  pose proof (wait_for_fcu_returned fuel _ Hret) as Hw.
  unfold waiting in Hw. apply andb_false_iff in Hw as [Hw|Hw].
  - left. apply negb_false_iff in Hw. now apply FlightState_eqb_eq.
  - right. now apply negb_false_iff in Hw.
Qed.

(** There is no bound on the wait: [relinquish_control] is still in its
    loop after [n] evaluations of the guard exactly when the guard held at
    each of them, that is, the state was not [PENDING] and no shutdown was
    requested; it has then slept [n] times. *)
Theorem relinquish_control_waits_while_guard_holds n w :
  (fst (relinquish_control env n w) = OutOfFuel <->
   forall j, j < n -> waiting env (periods env j (commanded_stop w)) = true)
  /\ (fst (relinquish_control env n w) = OutOfFuel ->
      snd (relinquish_control env n w) = periods env n (commanded_stop w)
      /\ sleeps (trace (snd (relinquish_control env n w)))
         = sleeps (trace w) + n).
Proof.
  rewrite relinquish_control_eq. split; [apply wait_for_fcu_running|].
  intros H. rewrite (wait_for_fcu_running_world n _ H).
  split; [reflexivity|]. rewrite periods_sleeps.
  unfold commanded_stop, record. cbn [trace].
  repeat rewrite sleeps_app. cbn. lia.
Qed.

(** ** Beyond the contract: what every entry into the node keeps *)

Lemma run_step fuel w :
  run env (S fuel) w
  = if shutdown_at env (clock w)
    then (Ok tt, record (IsShutdown true) w)
    else match fst (on_tick env (record (IsShutdown false) w)) with
         | Ok _      => run env fuel (tick_period env w)
         | Raise e   => (Raise e, ticked env w)
         | OutOfFuel => (OutOfFuel, ticked env w)
         end.
Proof.
  cbn [run]. unfold tick_period, ticked, bind at 1, is_shutdown.
  destruct (shutdown_at env (clock w)); cbn [negb fst snd]; [reflexivity|].
  unfold bind at 1.
  destruct (on_tick env (record (IsShutdown false) w)) as [[[]| |] w1];
    reflexivity.
Qed.

Section Invariant.

(** A property of worlds that the transitions to the states in [allowed]
    keep, and that does not look at the clock nor at events other than the
    calls of [enter] and [exit]. *)
Variable Inv : World TrackStamped -> Prop.
Variable allowed : FlightState -> Prop.

Hypothesis allowed_SEEK : allowed SEEK.
Hypothesis allowed_PENDING : allowed PENDING.
Hypothesis Inv_transition : forall s w,
  allowed s -> Inv w -> Inv (snd (transition_to_state env s w)).
Hypothesis Inv_step : forall w e n,
  lifecycle e = None -> Inv w ->
  Inv {| node := node w; trace := trace w ++ [e]; clock := n |}.

Lemma kept_by_record e w : lifecycle e = None -> Inv w -> Inv (record e w).
Proof. intros He Hw. unfold record. now apply Inv_step. Qed.

Lemma kept_by_handle_state_message msg w :
  Inv w -> Inv (snd (handle_state_message env msg w)).
Proof.
  intros Hw. rewrite handle_state_message_eq.
  repeat match goal with |- context [if ?b then _ else _] => destruct b end;
    auto.
Qed.

Lemma kept_by_call_active m w :
  (forall c, lifecycle (Call c m) = None) ->
  Inv w -> Inv (snd (call_active env m w)).
Proof.
  intros Hm Hw. rewrite call_active_eq.
  destruct (controller (node w)) as [c|]; [|assumption].
  rewrite call_world. now apply kept_by_record.
Qed.

Lemma kept_by_callback m w : Inv w -> Inv (callback env m w).
Proof.
  destruct m as [msg|msg]; cbn [callback]; intros Hw.
  - now apply kept_by_handle_state_message.
  - now apply kept_by_call_active.
Qed.

Lemma kept_by_deliver ms : forall w, Inv w -> Inv (deliver env ms w).
Proof.
  induction ms as [|m ms IH]; intros w Hw; [assumption|].
  rewrite deliver_cons. now apply IH, kept_by_callback.
Qed.

Lemma kept_by_sleep w : Inv w -> Inv (snd (sleep env w)).
Proof.
  intros Hw. unfold sleep. cbn [snd].
  apply kept_by_deliver. now apply Inv_step.
Qed.

Lemma kept_by_still_waiting w : Inv w -> Inv (snd (still_waiting env w)).
Proof.
  intros Hw. rewrite still_waiting_world.
  destruct (FlightState_eqb (state (node w)) PENDING); [assumption|].
  now apply kept_by_record.
Qed.

Lemma kept_by_wait_for_fcu fuel : forall w,
  Inv w -> Inv (snd (wait_for_fcu env fuel w)).
Proof.
  induction fuel as [|fuel IH]; intros w Hw; [assumption|].
  rewrite wait_for_fcu_step. destruct (waiting env w).
  - apply IH. rewrite one_period_eq.
    now apply kept_by_sleep, kept_by_still_waiting.
  - cbn [snd]. now apply kept_by_still_waiting.
Qed.

Lemma kept_by_relinquish_control fuel w :
  Inv w -> Inv (snd (relinquish_control env fuel w)).
Proof.
  intros Hw. rewrite relinquish_control_eq. apply kept_by_wait_for_fcu.
  unfold commanded_stop. now repeat apply kept_by_record.
Qed.

Lemma kept_by_ticked w : Inv w -> Inv (ticked env w).
Proof.
  intros Hw. unfold ticked, on_tick. apply kept_by_call_active; [easy|].
  unfold is_shutdown. cbn [snd]. now apply kept_by_record.
Qed.

Lemma kept_by_run fuel : forall w, Inv w -> Inv (snd (run env fuel w)).
Proof.
  induction fuel as [|fuel IH]; intros w Hw; [assumption|].
  rewrite run_step. destruct (shutdown_at env (clock w)) eqn:Hs.
  - cbn [snd]. now apply kept_by_record.
  - destruct (fst (on_tick env (record (IsShutdown false) w)));
      cbn [snd]; try now apply kept_by_ticked.
    apply IH. unfold tick_period. now apply kept_by_sleep, kept_by_ticked.
Qed.

Lemma kept_by_perform op w : Inv w -> Inv (snd (perform env op w)).
Proof.
  destruct op as [msg|msg| |fuel]; cbn [perform]; intros Hw.
  - now apply kept_by_handle_state_message.
  - now apply kept_by_call_active.
  - now apply kept_by_call_active.
  - now apply kept_by_relinquish_control.
Qed.

Lemma kept_by_history es : forall w,
  (forall s, In (Request s) es -> allowed s) ->
  Inv w -> Inv (history env es w).
Proof.
  induction es as [|e es IH]; intros w Hes Hw; [assumption|].
  change (history env (e :: es) w)
    with (history env es (snd (enter_by env e w))).
  apply IH; [intros s Hin; apply Hes; now right|].
  destruct e as [op|s|fuel]; cbn [enter_by].
  - now apply kept_by_perform.
  - apply Inv_transition; [apply Hes; now left | assumption].
  - now apply kept_by_run.
Qed.

End Invariant.

Lemma last_lifecycle_app t u :
  last_lifecycle (t ++ u)
  = match last_lifecycle u with
    | Some x => Some x
    | None   => last_lifecycle t
    end.
Proof.
  induction t as [|e t IH]; cbn [app last_lifecycle].
  - now destruct (last_lifecycle u).
  - rewrite IH. now destruct (last_lifecycle u).
Qed.

Lemma last_lifecycle_step t e :
  lifecycle e = None -> last_lifecycle (t ++ [e]) = last_lifecycle t.
Proof. intros He. rewrite last_lifecycle_app. cbn. now rewrite He. Qed.

Lemma last_lifecycle_enter t c :
  last_lifecycle (t ++ [Call c Enter]) = Some (c, Enter).
Proof. now rewrite last_lifecycle_app. Qed.

Lemma last_lifecycle_exit t e c :
  lifecycle e = None ->
  last_lifecycle (t ++ [e; Call c Exit]) = Some (c, Exit).
Proof. intros He. now rewrite last_lifecycle_app. Qed.

(** The link between [self.state] and [self.controller] survives every
    entry into the node, direct transitions and the control loop included,
    as long as no transition to a state outside the registry is asked for. *)
Theorem registry_link_kept_by_every_entry es w :
  (forall s, In (Request s) es -> s <> INIT) ->
  registered (node w) ->
  registered (node (history env es w)).
Proof.
  intros Hes Hw.
  apply (kept_by_history (fun w => registered (node w)) (fun s => s <> INIT));
    try assumption; try discriminate.
  - intros s w1 Hs H1.
    destruct (getitem_controllers_Some s Hs) as [c' Hg].
    eapply transition_registered; [eassumption | now left].
  - intros w1 e n _ H1. exact H1.
Qed.

Lemma transition_last_lifecycle s w :
  (exists c m, last_lifecycle (trace w) = Some (c, m)
               /\ controller (node w) = Some c) ->
  exists c m,
    last_lifecycle (trace (snd (transition_to_state env s w))) = Some (c, m)
    /\ controller (node (snd (transition_to_state env s w))) = Some c.
Proof.
  intros [c [m [Hl Hc]]].
  destruct (exit_returns env w s) eqn:Hr.
  - destruct (getitem controllers s) as [c'|] eqn:Hg.
    + rewrite (transition_exit_returns w s c' Hg Hr), call_world.
      exists c', Enter. split; [apply last_lifecycle_enter | reflexivity].
    + rewrite (transition_unregistered w s Hg Hr). cbn [snd trace node].
      exists c, Exit. split; [|assumption].
      unfold exit_events. rewrite Hc.
      now apply (last_lifecycle_exit (trace w) (transition_log w s) c).
  - destruct (exit_returns_false w s Hr) as [c0 [Hc0 Hx]].
    rewrite (transition_exit_raises w s c0 Hc0 Hx). cbn [snd trace node].
    exists c0, Exit. split; [now apply last_lifecycle_exit | assumption].
Qed.

(** After construction, whatever is called on the node (a transition to
    [INIT] too) and whatever raises, the last call of [enter] or [exit] in
    the trace was made on the controller that is active: once another
    controller has been entered or left, the earlier one is not the active
    one any more. *)
Theorem last_lifecycle_call_is_on_active_controller w0 es :
  let w := history env es (snd (CommanderNode_init env w0)) in
  exists c m,
    last_lifecycle (trace w) = Some (c, m) /\ controller (node w) = Some c.
Proof.
  cbv zeta.
  apply (kept_by_history
           (fun w => exists c m, last_lifecycle (trace w) = Some (c, m)
                                 /\ controller (node w) = Some c)
           (fun _ => True)); try exact I.
  - intros s w1 _. apply transition_last_lifecycle.
  - intros w1 e n He [c [m [Hl Hc]]]. exists c, m. cbn [trace node].
    split; [now rewrite last_lifecycle_step | assumption].
  - intros s _. exact I.
  - rewrite CommanderNode_init_eq, call_world.
    exists PendingController, Enter.
    split; [apply last_lifecycle_enter | reflexivity].
Qed.

(** If no [exit] raises and no transition to [INIT] is asked for, the
    active controller has been entered and not left since: the last call
    of [enter] or [exit] is its [enter].  Every tick and every track
    message therefore reaches a controller between its [enter] and its
    [exit]. *)
Theorem active_controller_is_entered w0 es :
  (forall c t, raises env c Exit t = false) ->
  (forall s, In (Request s) es -> s <> INIT) ->
  let w := history env es (snd (CommanderNode_init env w0)) in
  exists c,
    last_lifecycle (trace w) = Some (c, Enter)
    /\ controller (node w) = Some c
    /\ getitem controllers (state (node w)) = Some c.
Proof.
  intros Hexit Hes. cbv zeta.
  apply (kept_by_history
           (fun w => exists c, last_lifecycle (trace w) = Some (c, Enter)
                               /\ controller (node w) = Some c
                               /\ getitem controllers (state (node w))
                                  = Some c)
           (fun s => s <> INIT)); try assumption; try discriminate.
  - intros s w1 Hs _.
    destruct (getitem_controllers_Some s Hs) as [c' Hg].
    assert (Hr : exit_returns env w1 s = true).
    { unfold exit_returns. destruct (controller (node w1)); [|reflexivity].
      now rewrite Hexit. }
    rewrite (transition_exit_returns w1 s c' Hg Hr), call_world.
    exists c'. split; [apply last_lifecycle_enter|].
    split; [reflexivity | exact Hg].
  - intros w1 e n He [c [Hl Hc]]. exists c. cbn [trace node].
    split; [now rewrite last_lifecycle_step | assumption].
  - rewrite CommanderNode_init_eq, call_world.
    exists PendingController.
    split; [apply last_lifecycle_enter | split; reflexivity].
Qed.

(** ** The contract over every entry into the node *)



(** ** Beyond the contract: the control loop *)

Lemma transition_callback_events w new_state :
  grows_by is_callback_event w (snd (transition_to_state env new_state w)).
Proof.
  destruct (exit_returns env w new_state) eqn:Hr.
  - destruct (getitem controllers new_state) as [c'|] eqn:Hg.
    + rewrite (transition_exit_returns w new_state c' Hg Hr), call_world.
      eapply grows_by_trans; [|apply grows_by_record; reflexivity].
      eapply grows_by_trace; [reflexivity|].
      unfold exit_events. now destruct (controller (node w)).
    + rewrite (transition_unregistered w new_state Hg Hr).
      eapply grows_by_trace; [reflexivity|].
      unfold exit_events. now destruct (controller (node w)).
  - destruct (exit_returns_false w new_state Hr) as [c [Hc Hx]].
    rewrite (transition_exit_raises w new_state c Hc Hx).
    eapply grows_by_trace; reflexivity.
Qed.

Lemma callback_callback_events m w :
  grows_by is_callback_event w (callback env m w).
Proof.
  destruct m as [msg|msg]; cbn [callback].
  - rewrite handle_state_message_eq.
    repeat match goal with |- context [if ?b then _ else _] => destruct b end;
      auto using transition_callback_events, grows_by_refl.
  - unfold handle_track_message. rewrite call_active_eq.
    destruct (controller (node w)).
    + rewrite call_world. now apply grows_by_record.
    + apply grows_by_refl.
Qed.

Lemma deliver_callback_events ms : forall w,
  grows_by is_callback_event w (deliver env ms w).
Proof.
  induction ms as [|m ms IH]; intros w; [apply grows_by_refl|].
  rewrite deliver_cons.
  eapply grows_by_trans; [apply callback_callback_events | apply IH].
Qed.

Lemma runs_app t1 t2 : runs (t1 ++ t2) = runs t1 + runs t2.
Proof. unfold runs. now rewrite filter_app, length_app. Qed.

Lemma runs_callback_events t :
  forallb is_callback_event t = true -> runs t = 0.
Proof.
  induction t as [|e t IH]; [reflexivity|]. cbn [forallb].
  intros H. apply andb_true_iff in H as [He Ht].
  change (e :: t) with ([e] ++ t). rewrite runs_app, (IH Ht).
  destruct e as [| | |c []| | | |]; try reflexivity; discriminate.
Qed.

Lemma sleep_runs w : runs (trace (snd (sleep env w))) = runs (trace w).
Proof.
  unfold sleep. cbn [snd].
  destruct (deliver_callback_events (callbacks env (clock w))
              {| node := node w; trace := trace w ++ [Sleep];
                 clock := S (clock w) |}) as [evs [Ht He]].
  rewrite Ht. cbn [trace].
  rewrite !runs_app, (runs_callback_events evs He). cbn. lia.
Qed.

(** A tick that returns has called [run] on the active controller. *)
Lemma on_tick_returns w :
  fst (on_tick env w) = Ok tt ->
  exists c, controller (node w) = Some c
            /\ snd (on_tick env w) = record (Call c Run) w.
Proof.
  unfold on_tick. rewrite call_active_eq.
  destruct (controller (node w)) as [c|]; [|discriminate].
  intros _. exists c. split; [reflexivity | apply call_world].
Qed.

Lemma ticked_node w : node (ticked env w) = node w.
Proof. unfold ticked, on_tick. now rewrite call_active_node. Qed.

Lemma ticked_clock w : clock (ticked env w) = clock w.
Proof. unfold ticked, on_tick. now rewrite call_active_clock. Qed.

Lemma ticked_sleeps w : sleeps (trace (ticked env w)) = sleeps (trace w).
Proof.
  unfold ticked, on_tick.
  rewrite (sleeps_grows _ _ (call_active_grows Run _)).
  unfold is_shutdown. cbn [snd record trace]. rewrite sleeps_app. cbn. lia.
Qed.

Lemma ticked_runs w :
  fst (on_tick env (snd (is_shutdown env w))) = Ok tt ->
  runs (trace (ticked env w)) = S (runs (trace w)).
Proof.
  intros Hok. unfold ticked.
  destruct (on_tick_returns _ Hok) as [c [_ Hw]]. rewrite Hw.
  unfold is_shutdown. cbn [snd record trace].
  rewrite !runs_app. cbn. lia.
Qed.

Lemma tick_period_clock w : clock (tick_period env w) = S (clock w).
Proof. unfold tick_period. now rewrite sleep_clock, ticked_clock. Qed.

Lemma tick_period_sleeps w :
  sleeps (trace (tick_period env w)) = S (sleeps (trace w)).
Proof. unfold tick_period. now rewrite sleep_sleeps, ticked_sleeps. Qed.

Lemma tick_period_runs w :
  fst (on_tick env (snd (is_shutdown env w))) = Ok tt ->
  runs (trace (tick_period env w)) = S (runs (trace w)).
Proof.
  intros Hok. unfold tick_period. now rewrite sleep_runs, ticked_runs.
Qed.

Lemma ticks_succ k w : ticks env (S k) w = tick_period env (ticks env k w).
Proof.
  revert w. induction k as [|k IH]; intros w; [reflexivity|].
  change (ticks env (S (S k)) w) with (ticks env (S k) (tick_period env w)).
  now rewrite IH.
Qed.

Lemma ticks_clock k w : clock (ticks env k w) = clock w + k.
Proof.
  induction k as [|k IH]; [cbn; lia|].
  rewrite ticks_succ, tick_period_clock, IH. lia.
Qed.

Lemma ticks_sleeps k w :
  sleeps (trace (ticks env k w)) = sleeps (trace w) + k.
Proof.
  induction k as [|k IH]; [cbn; lia|].
  rewrite ticks_succ, tick_period_sleeps, IH. lia.
Qed.

Lemma ticks_runs k w :
  (forall j, j < k ->
     fst (on_tick env (snd (is_shutdown env (ticks env j w)))) = Ok tt) ->
  runs (trace (ticks env k w)) = runs (trace w) + k.
Proof.
  induction k as [|k IH]; intros Hok; [cbn; lia|].
  rewrite ticks_succ, tick_period_runs, IH; [lia| |].
  - intros j Hj. apply Hok. lia.
  - apply Hok. lia.
Qed.

(** The loop goes through the turns in which no shutdown is requested and
    the tick returns. *)
Lemma run_unroll k : forall fuel w,
  (forall j, j < k ->
     shutdown_at env (clock w + j) = false
     /\ fst (on_tick env (snd (is_shutdown env (ticks env j w)))) = Ok tt) ->
  run env (k + fuel) w = run env fuel (ticks env k w).
Proof.
  induction k as [|k IH]; intros fuel w Hturns; [reflexivity|].
  destruct (Hturns 0 ltac:(lia)) as [Hs Hok].
  rewrite Nat.add_0_r in Hs. cbn [ticks] in Hok.
  unfold is_shutdown in Hok. cbn [snd] in Hok. rewrite Hs in Hok.
  cbn [Nat.add]. rewrite run_step, Hs, Hok. cbn [ticks].
  apply IH. intros j Hj. destruct (Hturns (S j) ltac:(lia)) as [Hs' Hok'].
  rewrite tick_period_clock. split; [|exact Hok'].
  now replace (S (clock w) + j) with (clock w + S j) by lia.
Qed.

(** If shutdown is first requested at the [k]-th query, and the ticks
    before it return, [run] returns after exactly [k] calls of a
    controller's [run] and [k] sleeps, with the query that saw the
    shutdown as its last event. *)
Theorem run_ticks_until_shutdown k fuel w :
  k < fuel ->
  (forall j, j < k ->
     shutdown_at env (clock w + j) = false
     /\ fst (on_tick env (snd (is_shutdown env (ticks env j w)))) = Ok tt) ->
  shutdown_at env (clock w + k) = true ->
  run env fuel w = (Ok tt, record (IsShutdown true) (ticks env k w))
  /\ runs (trace (ticks env k w)) = runs (trace w) + k
  /\ sleeps (trace (ticks env k w)) = sleeps (trace w) + k
  /\ clock (ticks env k w) = clock w + k.
Proof.
  intros Hf Hturns Hstop.
  split; [|split; [|split]].
  - replace fuel with (k + S (fuel - S k)) by lia.
    rewrite (run_unroll k _ w Hturns), run_step, ticks_clock, Hstop.
    reflexivity.
  - apply ticks_runs. intros j Hj. now apply Hturns.
  - apply ticks_sleeps.
  - apply ticks_clock.
Qed.

(** A tick that raises ends the control loop: [run] raises the same
    exception, and the failed call is its last event; the loop does not
    sleep again and the node is as the turns before left it. *)
Theorem run_ends_when_a_tick_raises k fuel w e :
  k < fuel ->
  (forall j, j < k ->
     shutdown_at env (clock w + j) = false
     /\ fst (on_tick env (snd (is_shutdown env (ticks env j w)))) = Ok tt) ->
  shutdown_at env (clock w + k) = false ->
  fst (on_tick env (snd (is_shutdown env (ticks env k w)))) = Raise e ->
  run env fuel w = (Raise e, ticked env (ticks env k w))
  /\ node (ticked env (ticks env k w)) = node (ticks env k w)
  /\ sleeps (trace (ticked env (ticks env k w))) = sleeps (trace w) + k.
Proof.
  intros Hf Hturns Hgo Hfail.
  split; [|split].
  - replace fuel with (k + S (fuel - S k)) by lia.
    rewrite (run_unroll k _ w Hturns), run_step, ticks_clock, Hgo.
    unfold is_shutdown in Hfail. cbn [snd] in Hfail.
    rewrite ticks_clock, Hgo in Hfail. now rewrite Hfail.
  - apply ticked_node.
  - now rewrite ticked_sleeps, ticks_sleeps.
Qed.

(** With no message arriving and a controller whose [run] does not raise,
    [k] periods of the control loop are [k] times the shutdown query, one
    call of [run] on that controller and one sleep; the node is untouched. *)
Theorem run_without_messages k : forall fuel w c,
  k < fuel ->
  controller (node w) = Some c ->
  (forall t, raises env c Run t = false) ->
  (forall j, j < k ->
     shutdown_at env (clock w + j) = false
     /\ callbacks env (clock w + j) = []) ->
  shutdown_at env (clock w + k) = true ->
  run env fuel w
  = (Ok tt,
     {| node := node w;
        trace := trace w
                 ++ concat (repeat [IsShutdown false; Call c Run; Sleep] k)
                 ++ [IsShutdown true];
        clock := clock w + k |}).
Proof.
  induction k as [|k IH]; intros fuel w c Hf Hc Hrun Hquiet Hstop.
  - destruct fuel as [|fuel]; [lia|].
    rewrite Nat.add_0_r in Hstop. rewrite run_step, Hstop.
    unfold record. cbn [repeat concat app]. now rewrite Nat.add_0_r.
  - destruct fuel as [|fuel]; [lia|].
    destruct (Hquiet 0 ltac:(lia)) as [Hs Hcb]. rewrite Nat.add_0_r in Hs, Hcb.
    assert (Htick : on_tick env (record (IsShutdown false) w)
                    = (Ok tt, record (Call c Run)
                                (record (IsShutdown false) w))).
    { unfold on_tick. rewrite call_active_eq. cbn [record node]. rewrite Hc.
      unfold call. now rewrite Hrun. }
    assert (Hperiod : tick_period env w
                      = {| node := node w;
                           trace := trace w ++ [IsShutdown false; Call c Run;
                                                Sleep];
                           clock := S (clock w) |}).
    { unfold tick_period, ticked, is_shutdown. cbn [snd]. rewrite Hs, Htick.
      unfold sleep, record. cbn [snd node trace clock]. rewrite Hcb.
      cbn [deliver fold_left]. now rewrite <- !app_assoc. }
    rewrite run_step, Hs, Htick. cbn [fst]. rewrite Hperiod.
    rewrite (IH fuel _ c); cbn [node trace clock]; try assumption; try lia.
    + f_equal. f_equal; [|lia].
      cbn [repeat concat]. now rewrite <- !app_assoc.
    + intros j Hj. replace (S (clock w) + j) with (clock w + S j) by lia.
      apply Hquiet. lia.
    + now replace (S (clock w) + k) with (clock w + S k) by lia.
Qed.

(** ** Beyond the contract: startup *)

(** The program builds the node and enters the control loop.  If the
    [enter] of the pending controller raises during construction, the
    program ends with that exception before the first shutdown query, tick
    or sleep; otherwise the loop starts in [PENDING] with the pending
    controller active. *)
Theorem main_starts_in_PENDING_or_fails fuel w :
  let t0 := trace w
            ++ [InitNode "commander"; Subscribe "/mavros/state";
                Subscribe "/tracker/track";
                LogInfo "STATE TRANSITION: %s --> %s" [INIT; PENDING]] in
  (raises env PendingController Enter t0 = true ->
   main env fuel w
   = (Raise (ControllerError PendingController Enter),
      {| node := {| state := PENDING;
                    controller := Some PendingController |};
         trace := t0 ++ [Call PendingController Enter];
         clock := clock w |}))
  /\ (raises env PendingController Enter t0 = false ->
      main env fuel w
      = run env fuel
          {| node := {| state := PENDING;
                        controller := Some PendingController |};
             trace := t0 ++ [Call PendingController Enter];
             clock := clock w |}).
Proof.
  intros t0. subst t0. unfold main, bind.
  rewrite CommanderNode_init_eq. unfold call. cbn [trace].
  split; intros Hr; rewrite Hr; reflexivity.
Qed.

End Properties.

(** * The contract on the scenarios *)

(** In [PENDING], GUIDED starts the program and the node is in [SEEK]; in
    [SEEK], MANUAL ends it and the node is in [PENDING]; in [APPROACH],
    GUIDED changes nothing. *)
Lemma mode_event_table_witness :
  node (snd (handle_state_message quiet {| mode := "GUIDED" |}
               (in_state PENDING PendingController)))
  = {| state := SEEK; controller := Some SeekController |}
  /\ node (snd (handle_state_message quiet {| mode := "MANUAL" |}
                  (in_state SEEK SeekController)))
     = {| state := PENDING; controller := Some PendingController |}
  /\ handle_state_message quiet {| mode := "GUIDED" |}
       (in_state APPROACH ApproachController)
     = (Ok tt, in_state APPROACH ApproachController).
Proof.
  split; [|split].
  - destruct (proj1 (mode_event_table Track quiet {| mode := "GUIDED" |}
                       (in_state PENDING PendingController)))
      as [_ Hdone].
    + simpl. auto.
    + reflexivity.
    + destruct (Hdone eq_refl) as [Hs [Hc _]].
      destruct (node (snd (handle_state_message quiet {| mode := "GUIDED" |}
                             (in_state PENDING PendingController))))
        as [s c].
      cbn [state controller] in Hs, Hc. now rewrite Hs, Hc.
  - destruct (proj1 (proj2 (mode_event_table Track quiet
                              {| mode := "MANUAL" |}
                              (in_state SEEK SeekController))))
      as [_ Hdone].
    + simpl. intros [H|[H|[]]]; discriminate.
    + discriminate.
    + destruct (Hdone eq_refl) as [Hs [Hc _]].
      destruct (node (snd (handle_state_message quiet {| mode := "MANUAL" |}
                             (in_state SEEK SeekController))))
        as [s c].
      cbn [state controller] in Hs, Hc. now rewrite Hs, Hc.
  - apply (proj2 (proj2 (mode_event_table Track quiet {| mode := "GUIDED" |}
                           (in_state APPROACH ApproachController)))).
    left. split; [simpl; auto | discriminate].
Defined.

(** C2 as the spec states it (every call sets the attributes and ends
    with [enter] of the new controller) fails: on the way from [SEEK] to
    [APPROACH] the [exit] of the seek controller raises, and the call has
    logged and called that [exit] and nothing more; the approach controller
    is not entered and the node is still in [SEEK] with the seek
    controller. *)
Lemma failed_exit_skips_writes_and_enter :
  let w' := snd (transition_to_state seek_exit_fails APPROACH
                   (in_state SEEK SeekController)) in
  getitem controllers APPROACH = Some ApproachController
  /\ trace w'
     = [LogInfo "STATE TRANSITION: %s --> %s" [SEEK; APPROACH];
        Call SeekController Exit]
  /\ ~ In (Call ApproachController Enter) (trace w')
  /\ state (node w') <> APPROACH
  /\ controller (node w') <> Some ApproachController.
Proof.
  cbv zeta. split; [reflexivity|]. split; [reflexivity|].
  split; [|split].
  - vm_compute. intros [H|[H|[]]]; discriminate.
  - vm_compute. discriminate.
  - vm_compute. discriminate.
Qed.

(** Leaving [SEEK] for [PENDING]: log, [exit] of seek, the writes, [enter]
    of pending.  Leaving [SEEK] for [LAND] with a seek controller whose
    [exit] raises: log, that [exit], and the node as it was. *)
Lemma transition_protocol_witness :
  (trace (snd (transition_to_state quiet PENDING
                 (in_state SEEK SeekController)))
   = [LogInfo "STATE TRANSITION: %s --> %s" [SEEK; PENDING];
      Call SeekController Exit; Call PendingController Enter]
   /\ state (node (snd (transition_to_state quiet PENDING
                          (in_state SEEK SeekController)))) = PENDING)
  /\ (trace (snd (transition_to_state seek_exit_fails LAND
                    (in_state SEEK SeekController)))
      = [LogInfo "STATE TRANSITION: %s --> %s" [SEEK; LAND];
         Call SeekController Exit]
      /\ node (snd (transition_to_state seek_exit_fails LAND
                      (in_state SEEK SeekController)))
         = {| state := SEEK; controller := Some SeekController |}).
Proof.
  split.
  - pose proof (proj1 (transition_protocol Track quiet
                         (in_state SEEK SeekController) PENDING
                         PendingController eq_refl) eq_refl)
      as [Ht [Hs _]].
    split; [exact Ht | exact Hs].
  - destruct (proj2 (transition_protocol Track seek_exit_fails
                       (in_state SEEK SeekController) LAND
                       LandController eq_refl) eq_refl)
      as [c [Hc [_ [Ht [Hn _]]]]].
    injection Hc as <-. split; [exact Ht | exact Hn].
Defined.

(** C3 as the spec states it (after a failed [exit] the attributes hold the
    new state and its controller) fails: the [exit] of the seek controller
    raises on the way from [SEEK] to [PENDING], the call raises with it, and
    the node still has [SEEK] and the seek controller; the trace ends with
    the failed call and no log of the error. *)
Lemma failed_exit_keeps_old_controller :
  let r := transition_to_state seek_exit_fails PENDING
             (in_state SEEK SeekController) in
  fst r = Raise (ControllerError SeekController Exit)
  /\ trace (snd r)
     = [LogInfo "STATE TRANSITION: %s --> %s" [SEEK; PENDING];
        Call SeekController Exit]
  /\ ~ (state (node (snd r)) = PENDING
        /\ controller (node (snd r)) = Some PendingController).
Proof.
  cbv zeta. split; [reflexivity|]. split; [reflexivity|].
  intros [H _]. vm_compute in H. discriminate.
Qed.

(** The failing [exit] of the seek controller, and the failing [enter] of
    the pending controller. *)
Lemma transition_failure_propagates_witness :
  (fst (transition_to_state seek_exit_fails PENDING
          (in_state SEEK SeekController))
   = Raise (ControllerError SeekController Exit)
   /\ node (snd (transition_to_state seek_exit_fails PENDING
                   (in_state SEEK SeekController)))
      = {| state := SEEK; controller := Some SeekController |})
  /\ (fst (transition_to_state pending_enter_fails PENDING
             (in_state SEEK SeekController))
      = Raise (ControllerError PendingController Enter)
      /\ state (node (snd (transition_to_state pending_enter_fails PENDING
                             (in_state SEEK SeekController)))) = PENDING
      /\ controller (node (snd (transition_to_state pending_enter_fails
                                  PENDING (in_state SEEK SeekController))))
         = Some PendingController).
Proof.
  split.
  - pose proof (proj1 (transition_failure_propagates Track seek_exit_fails
                         (in_state SEEK SeekController) PENDING
                         PendingController eq_refl)
                  SeekController eq_refl eq_refl) as [Hr [Hn _]].
    split; [exact Hr | exact Hn].
  - pose proof (proj2 (transition_failure_propagates Track pending_enter_fails
                         (in_state SEEK SeekController) PENDING
                         PendingController eq_refl)
                  eq_refl eq_refl) as [Hr [Hs [Hc _]]].
    split; [exact Hr | split; [exact Hs | exact Hc]].
Defined.

(** Relinquishing in [DESCEND] when the hold mode is reported during the
    second sleep: two sleeps, then the return in [PENDING]. *)
Lemma relinquish_returns_at_first_lapse_witness :
  exists w',
    relinquish_control hold_after_two 5 (in_state DESCEND DescendController)
    = (Ok tt, w')
    /\ state (node w') = PENDING
    /\ sleeps (trace w') = 2.
Proof.
  destruct (relinquish_returns_at_first_lapse Track hold_after_two 2 5
              (in_state DESCEND DescendController))
    as [w' [Hrun [Hnode [_ [Hsleeps _]]]]].
  - lia.
  - intros j Hj. destruct j as [|[|j]]; [reflexivity | reflexivity | lia].
  - reflexivity.
  - exists w'. split; [exact Hrun|]. split.
    + rewrite Hnode. reflexivity.
    + rewrite Hsleeps. reflexivity.
Defined.

(** LOITER is not a guided mode: in [DESCEND] it sends the node to
    [PENDING]. *)
Lemma guided_iff_member_witness :
  contains GUIDED_MODES "LOITER" = false
  /\ state (node (snd (handle_state_message quiet {| mode := "LOITER" |}
                         (in_state DESCEND DescendController)))) = PENDING.
Proof.
  split; [reflexivity|].
  apply (proj2 (proj2 (proj2 (guided_iff_member Track quiet))
                  {| mode := "LOITER" |}
                  (in_state DESCEND DescendController)
                  ltac:(simpl; intros [H|[H|[]]]; discriminate)
                  ltac:(discriminate))).
  reflexivity.
Defined.

(** Track message 7 in [APPROACH] goes to the approach controller. *)
Lemma track_forwarded_to_active_witness :
  registered (node (in_state APPROACH ApproachController))
  /\ exists c,
       getitem controllers APPROACH = Some c
       /\ snd (handle_track_message quiet 7
                 (in_state APPROACH ApproachController))
          = {| node := {| state := APPROACH;
                          controller := Some ApproachController |};
               trace := [Call c (HandleTrackMessage 7)];
               clock := 0 |}.
Proof.
  assert (H : registered (node (in_state APPROACH ApproachController))).
  { split; [discriminate | reflexivity]. }
  split; [exact H|].
  destruct (track_forwarded_to_active Track quiet 7
              (in_state APPROACH ApproachController) H)
    as [c [Hg [_ Hw]]].
  exists c. split; [exact Hg | exact Hw].
Defined.

(** POSHOLD reported in [DESCEND]: the node is in [PENDING] and a wait loop
    started there returns without a sleep. *)
Lemma hold_mode_ends_wait_witness :
  state (node (snd (handle_state_message quiet {| mode := "POSHOLD" |}
                      (in_state DESCEND DescendController)))) = PENDING
  /\ sleeps (trace (snd (wait_for_fcu quiet 1
                           (snd (handle_state_message quiet
                                   {| mode := "POSHOLD" |}
                                   (in_state DESCEND DescendController))))))
     = 0.
Proof.
  pose proof (proj2 (proj2 (proj2 (hold_mode_ends_wait Track quiet))
                       (in_state DESCEND DescendController)
                       ltac:(discriminate))
                eq_refl) as [Hs [_ Hw]].
  split; [exact Hs|].
  rewrite (Hw 0). reflexivity.
Defined.

(** * Beyond the contract, on the scenarios *)

(** A transition from [SEEK] to [INIT]: [KeyError], with the state at
    [INIT] and the seek controller still in place. *)
Lemma transition_outside_registry_witness :
  fst (transition_to_state quiet INIT (in_state SEEK SeekController))
  = Raise (KeyError INIT)
  /\ node (snd (transition_to_state quiet INIT
                  (in_state SEEK SeekController)))
     = {| state := INIT; controller := Some SeekController |}.
Proof.
  pose proof (proj2 (transition_outside_registry Track quiet
                       (in_state SEEK SeekController) INIT)
                eq_refl eq_refl) as [Hr [Hs [Hc _]]].
  split; [exact Hr|].
  destruct (node (snd (transition_to_state quiet INIT
                         (in_state SEEK SeekController)))) as [s c].
  cbn [state controller] in Hs, Hc. now rewrite Hs, Hc.
Defined.

(** GUIDED reported twice in [PENDING]: the second report finds [SEEK] and
    does nothing. *)
Lemma repeated_mode_report_is_idle_witness :
  fst (handle_state_message quiet {| mode := "GUIDED" |}
         (snd (handle_state_message quiet {| mode := "GUIDED" |}
                 (in_state PENDING PendingController))))
  = Ok tt
  /\ trace (snd (handle_state_message quiet {| mode := "GUIDED" |}
                   (snd (handle_state_message quiet {| mode := "GUIDED" |}
                           (in_state PENDING PendingController)))))
     = [LogInfo "STATE TRANSITION: %s --> %s" [PENDING; SEEK];
        Call PendingController Exit; Call SeekController Enter].
Proof.
  rewrite (repeated_mode_report_is_idle Track quiet {| mode := "GUIDED" |}
             (in_state PENDING PendingController)).
  - split; reflexivity.
  - intros c. vm_compute. discriminate.
Defined.

(** MANUAL reported in [SEEK] while the [exit] of the seek controller
    raises: the node stays in [SEEK] and the next MANUAL tries again. *)
Lemma failed_exit_is_attempted_again_witness :
  node (snd (handle_state_message seek_exit_fails {| mode := "MANUAL" |}
               (in_state SEEK SeekController)))
  = {| state := SEEK; controller := Some SeekController |}
  /\ exists target,
       handle_state_message seek_exit_fails {| mode := "MANUAL" |}
         (snd (handle_state_message seek_exit_fails {| mode := "MANUAL" |}
                 (in_state SEEK SeekController)))
       = transition_to_state seek_exit_fails target
           (snd (handle_state_message seek_exit_fails {| mode := "MANUAL" |}
                   (in_state SEEK SeekController))).
Proof.
  destruct (failed_exit_is_attempted_again Track seek_exit_fails
              {| mode := "MANUAL" |} (in_state SEEK SeekController)
              SeekController eq_refl)
    as [Hn [_ [target [_ Hagain]]]].
  split; [exact Hn|]. exists target. exact Hagain.
Defined.

(** Relinquishing in [DESCEND] with the hold mode reported during the
    second sleep returns in [PENDING]. *)
Lemma relinquish_control_returns_in_PENDING_or_shutdown_witness :
  fst (relinquish_control hold_after_two 5
         (in_state DESCEND DescendController)) = Ok tt
  /\ (state (node (snd (relinquish_control hold_after_two 5
                          (in_state DESCEND DescendController)))) = PENDING
      \/ shutdown_at hold_after_two
           (clock (snd (relinquish_control hold_after_two 5
                          (in_state DESCEND DescendController)))) = true).
Proof.
  split; [reflexivity|].
  apply (relinquish_control_returns_in_PENDING_or_shutdown Track
           hold_after_two 5 (in_state DESCEND DescendController)).
  reflexivity.
Defined.

(** Relinquishing in [DESCEND] when no mode report arrives: after three
    polls the call is still waiting, three sleeps later. *)
Lemma relinquish_control_waits_while_guard_holds_witness :
  fst (relinquish_control quiet 3 (in_state DESCEND DescendController))
  = OutOfFuel
  /\ sleeps (trace (snd (relinquish_control quiet 3
                           (in_state DESCEND DescendController)))) = 3.
Proof.
  pose proof (relinquish_control_waits_while_guard_holds Track quiet 3
                (in_state DESCEND DescendController)) as [Hiff Hworld].
  assert (Hrun : fst (relinquish_control quiet 3
                        (in_state DESCEND DescendController)) = OutOfFuel).
  { apply (proj2 Hiff). intros j Hj.
    destruct j as [|[|[|j]]]; [reflexivity | reflexivity | reflexivity | lia]. }
  split; [exact Hrun|].
  destruct (Hworld Hrun) as [_ Hsleeps]. exact Hsleeps.
Defined.

(** From [PENDING]: GUIDED, a direct transition to [APPROACH], two turns of
    the control loop and a tick. *)
Lemma registry_link_kept_by_every_entry_witness :
  registered
    (node (history quiet
             [Operation (OnFcuMode {| mode := "GUIDED" |});
              Request APPROACH; ControlLoop 2; Operation OnTick]
             (in_state PENDING PendingController))).
Proof.
  apply (registry_link_kept_by_every_entry Track quiet).
  - intros s [H|[H|[H|[H|[]]]]]; try discriminate.
    injection H as <-. discriminate.
  - split; [discriminate | reflexivity].
Defined.

(** The same entries on a node that has just been constructed: the
    approach controller is active and its [enter] is the last of the
    [enter] and [exit] calls. *)
Lemma active_controller_is_entered_witness :
  exists c,
    last_lifecycle
      (trace (history quiet
                [Operation (OnFcuMode {| mode := "GUIDED" |});
                 Request APPROACH; ControlLoop 2; Operation OnTick]
                (snd (CommanderNode_init quiet fresh))))
    = Some (c, Enter)
    /\ c = ApproachController.
Proof.
  destruct (active_controller_is_entered Track quiet fresh
              [Operation (OnFcuMode {| mode := "GUIDED" |});
               Request APPROACH; ControlLoop 2; Operation OnTick])
    as [c [Hl [Hc _]]].
  - reflexivity.
  - intros s [H|[H|[H|[H|[]]]]]; try discriminate.
    injection H as <-. discriminate.
  - exists c. split; [exact Hl|].
    vm_compute in Hc. now injection Hc as <-.
Defined.

(** Three periods, with GUIDED arriving in the first and a track message
    in the second, then shutdown: three calls of [run], three sleeps. *)
Lemma run_ticks_until_shutdown_witness :
  fst (run three_periods 10 (in_state PENDING PendingController)) = Ok tt
  /\ runs (trace (snd (run three_periods 10
                         (in_state PENDING PendingController)))) = 3
  /\ sleeps (trace (snd (run three_periods 10
                           (in_state PENDING PendingController)))) = 3.
Proof.
  destruct (run_ticks_until_shutdown Track three_periods 3 10
              (in_state PENDING PendingController))
    as [Hrun [Hruns [Hsleeps _]]].
  - lia.
  - intros j Hj.
    destruct j as [|[|[|j]]]; [split; reflexivity .. | lia].
  - reflexivity.
  - rewrite Hrun. cbn [fst snd record trace].
    rewrite runs_app, sleeps_app, Hruns, Hsleeps. repeat split.
Defined.

(** In [APPROACH], the second call of [run] raises: the loop ends there,
    one sleep after it started. *)
Lemma run_ends_when_a_tick_raises_witness :
  fst (run second_run_fails 10 (in_state APPROACH ApproachController))
  = Raise (ControllerError ApproachController Run)
  /\ sleeps (trace (snd (run second_run_fails 10
                           (in_state APPROACH ApproachController)))) = 1.
Proof.
  destruct (run_ends_when_a_tick_raises Track second_run_fails 1 10
              (in_state APPROACH ApproachController)
              (ControllerError ApproachController Run))
    as [Hrun [_ Hsleeps]].
  - lia.
  - intros j Hj. destruct j as [|j]; [split; reflexivity | lia].
  - reflexivity.
  - reflexivity.
  - rewrite Hrun. split; [reflexivity | exact Hsleeps].
Defined.

(** In [APPROACH], three periods without a message: three times query,
    [run] of the approach controller, sleep; then the query that stops. *)
Lemma run_without_messages_witness :
  run three_silent_periods 10 (in_state APPROACH ApproachController)
  = (Ok tt,
     {| node := {| state := APPROACH;
                   controller := Some ApproachController |};
        trace := [IsShutdown false; Call ApproachController Run; Sleep;
                  IsShutdown false; Call ApproachController Run; Sleep;
                  IsShutdown false; Call ApproachController Run; Sleep;
                  IsShutdown true];
        clock := 3 |}).
Proof.
  apply (run_without_messages Track three_silent_periods 3 10
           (in_state APPROACH ApproachController) ApproachController).
  - lia.
  - reflexivity.
  - reflexivity.
  - intros j Hj.
    destruct j as [|[|[|j]]]; [split; reflexivity .. | lia].
  - reflexivity.
Defined.

(** A pending controller whose [enter] raises: the program ends in
    construction; with controllers that do not raise it runs its three
    periods. *)
Lemma main_starts_in_PENDING_or_fails_witness :
  main pending_enter_fails 10 fresh
  = (Raise (ControllerError PendingController Enter),
     {| node := {| state := PENDING;
                   controller := Some PendingController |};
        trace := [InitNode "commander"; Subscribe "/mavros/state";
                  Subscribe "/tracker/track";
                  LogInfo "STATE TRANSITION: %s --> %s" [INIT; PENDING];
                  Call PendingController Enter];
        clock := 0 |})
  /\ runs (trace (snd (main three_silent_periods 10 fresh))) = 3.
Proof.
  split.
  - apply (proj1 (main_starts_in_PENDING_or_fails Track pending_enter_fails
                    10 fresh)).
    reflexivity.
  - rewrite (proj2 (main_starts_in_PENDING_or_fails Track
                      three_silent_periods 10 fresh) eq_refl).
    reflexivity.
Defined.

(** * The contract over every entry, on the scenarios *)




